(** * sparetimecoders/monitor: the health-check scheduler and its
      transition detector, embedded from the Go sources.

    Source files: [types.go] (State, StatusListener), [config.go]
    (Config), [monitor.go] (Monitor and its methods; the lane's
    [checkFunc] and [handleStatusListener]).

    The embedding is sequential: one method call, or one invocation of
    a lane's [checkFunc], is one atomic step.  Mutexes are therefore
    omitted.  What the Go runtime provides (channels, the [&State{...}]
    objects, goroutines started by [go]) lives in an explicit [Runtime];
    what a step reads from its environment (the probe's result, the
    readings of [time.Now()]) is an argument of the step. *)

From stdpp Require Import base option list gmap strings pretty.
From Stdlib Require Import ZArith Floats Uint63 Lia.

Local Open Scope string_scope.
Local Open Scope list_scope.
Local Open Scope Z_scope.

(* ================================================================== *)
(** ** What the code takes from Go itself *)

(** [int64]: a [Z] kept in range by two's-complement wrap-around. *)
Definition min_int64 : Z := - 2 ^ 63.
Definition max_int64 : Z := 2 ^ 63 - 1.

Definition wrap64 (z : Z) : Z := (z + 2 ^ 63) mod 2 ^ 64 - 2 ^ 63.

(** Go's [a + b] on [int64]. *)
Definition add64 (a b : Z) : Z := wrap64 (a + b).

(** [time.Time]: an instant, in nanoseconds counted from the zero
    [Time]; the zero value of the type is [0]. *)
Definition Time : Type := Z.
Definition zero_Time : Time := 0.

(** [time.Duration]: an [int64] count of nanoseconds. *)
Definition Duration : Type := Z.

(** [t.Sub(u)]: the difference, saturated to the range of [Duration]. *)
Definition Sub (t u : Time) : Duration :=
  if t - u <? min_int64 then min_int64
  else if max_int64 <? t - u then max_int64
  else t - u.

(** [float64(x)] for an [int64] [x]. *)
Definition float64_of_int64 (x : Z) : float :=
  if x <? 0 then PrimFloat.opp (PrimFloat.of_uint63 (Uint63.of_Z (- x)))
  else PrimFloat.of_uint63 (Uint63.of_Z x).

(** [d.Seconds()], as package [time] computes it:
    [sec := d / Second; nsec := d % Second;
     return float64(sec) + float64(nsec)/1e9]. *)
Definition Seconds (d : Duration) : float :=
  let sec := Z.quot d 1000000000 in
  let nsec := Z.rem d 1000000000 in
  PrimFloat.add (float64_of_int64 sec)
                (PrimFloat.div (float64_of_int64 nsec) 1e9%float).

(** [error]: [nil] is [None]; an error value is its message, which is
    all the code ever asks of it ([err.Error()], [%v]). *)
Definition error : Type := option string.

(** [interface{}] values: the payload of a probe.  The scheduler only
    copies it into [State.Details]; the cases are the ones the
    repository's checkers return (a string, a [time.Duration]). *)
Inductive any : Type :=
| any_nil
| any_string (s : string)
| any_Duration (d : Duration).

(** References handed out by the Go runtime. *)
Definition chan : Type := nat.        (* a [chan struct{}] *)
Definition ptr : Type := nat.         (* a [*State] *)
Definition Checker : Type := nat.     (* a [Checker] interface value *)
Definition StatusListener : Type := nat. (* a non-nil [StatusListener] *)
Definition func : Type := nat.        (* a non-nil [func(state *State)] *)

(* ================================================================== *)
(** ** types.go *)

Record State : Type := mkState {
  Name : string;
  Status : string;
  Err : string;
  Details : any;
  CheckTime : Time;
  ContiguousFailures : Z;
  TimeOfFirstFailure : Time
}.

(** The zero value of [State]: what a Go map lookup yields for a
    missing key. *)
Definition zero_State : State :=
  {| Name := ""; Status := ""; Err := ""; Details := any_nil;
     CheckTime := zero_Time; ContiguousFailures := 0;
     TimeOfFirstFailure := zero_Time |}.

Definition isFailure (s : State) : bool :=
  bool_decide (Status s = "failed").

Definition set_Status (v : string) (s : State) : State :=
  {| Name := Name s; Status := v; Err := Err s; Details := Details s;
     CheckTime := CheckTime s; ContiguousFailures := ContiguousFailures s;
     TimeOfFirstFailure := TimeOfFirstFailure s |}.

Definition set_Err (v : string) (s : State) : State :=
  {| Name := Name s; Status := Status s; Err := v; Details := Details s;
     CheckTime := CheckTime s; ContiguousFailures := ContiguousFailures s;
     TimeOfFirstFailure := TimeOfFirstFailure s |}.

Definition set_ContiguousFailures (v : Z) (s : State) : State :=
  {| Name := Name s; Status := Status s; Err := Err s; Details := Details s;
     CheckTime := CheckTime s; ContiguousFailures := v;
     TimeOfFirstFailure := TimeOfFirstFailure s |}.

Definition set_TimeOfFirstFailure (v : Time) (s : State) : State :=
  {| Name := Name s; Status := Status s; Err := Err s; Details := Details s;
     CheckTime := CheckTime s; ContiguousFailures := ContiguousFailures s;
     TimeOfFirstFailure := v |}.

(* ================================================================== *)
(** ** config.go *)

Module config.

Record Config : Type := mkConfig {
  Name : string;
  Checker : Checker;
  Interval : Duration;
  OnComplete : option func      (* [None] is the nil hook *)
}.

Definition NewConfig (name : string) checker (interval : Duration)
    (onComplete : option func) : Config * error :=
  ({| Name := name; Checker := checker; Interval := interval;
      OnComplete := onComplete |}, None).

End config.

Abbreviation Config := config.Config.

(* ================================================================== *)
(** ** The Go runtime, as far as the scheduler uses it *)

(** A call started with [go].  A listener or hook receives the
    _pointer_ to the lane's state entry, not a copy. *)
Inductive goroutine : Type :=
| go_lane (cfg : Config) (stop : chan)
| go_CheckFailed (l : StatusListener) (entry : ptr)
| go_CheckRecovered (l : StatusListener) (entry : ptr)
    (recordedFailures : Z) (failureDurationSeconds : float)
| go_StillFailing (l : StatusListener) (entry : ptr) (recordedFailures : Z)
| go_OnComplete (f : func) (entry : ptr).

(** [chans !! c] is [Some true] once channel [c] is closed; [heap !! p]
    is the [State] that [p] points to; [spawned] lists the [go]
    statements executed so far, oldest first. *)
Record Runtime : Type := mkRuntime {
  chans : list bool;
  heap : list State;
  spawned : list goroutine
}.

Definition Runtime0 : Runtime :=
  {| chans := []; heap := []; spawned := [] |}.

Inductive result (A : Type) : Type :=
| Done (a : A) (rt : Runtime)
| Panic (msg : string).
Arguments Done {A} a rt.
Arguments Panic {A} msg.

Definition Go (A : Type) : Type := Runtime → result A.

#[export] Instance Go_ret : MRet Go := λ A a rt, Done a rt.
#[export] Instance Go_bind : MBind Go := λ A B f m rt,
  match m rt with
  | Done a rt' => f a rt'
  | Panic msg => Panic msg
  end.

(** [make(chan struct{})] *)
Definition make_chan : Go chan := λ rt,
  Done (length (chans rt))
       {| chans := chans rt ++ [false]; heap := heap rt;
          spawned := spawned rt |}.

(** [close(c)]: closing a closed channel panics. *)
Definition close (c : chan) : Go unit := λ rt,
  match chans rt !! c with
  | Some false =>
      Done tt {| chans := <[c := true]> (chans rt); heap := heap rt;
                 spawned := spawned rt |}
  | Some true => Panic "close of closed channel"
  | None => Panic "close of nil channel"
  end.

(** [&State{...}] *)
Definition new_State (s : State) : Go ptr := λ rt,
  Done (length (heap rt))
       {| chans := chans rt; heap := heap rt ++ [s];
          spawned := spawned rt |}.

(** [*p] *)
Definition load (p : ptr) : Go State := λ rt,
  match heap rt !! p with
  | Some s => Done s rt
  | None => Panic "invalid memory address or nil pointer dereference"
  end.

(** [p.field = v] *)
Definition modify (p : ptr) (f : State → State) : Go unit := λ rt,
  match heap rt !! p with
  | Some s =>
      Done tt {| chans := chans rt; heap := <[p := f s]> (heap rt);
                 spawned := spawned rt |}
  | None => Panic "invalid memory address or nil pointer dereference"
  end.

(** [go g] *)
Definition go_ (g : goroutine) : Go unit := λ rt,
  Done tt {| chans := chans rt; heap := heap rt;
             spawned := spawned rt ++ [g] |}.

(** A [for ... range] loop whose body threads an accumulator. *)
Fixpoint for_range {A B : Type} (body : B → A → Go B) (acc : B)
    (l : list A) : Go B :=
  match l with
  | [] => mret acc
  | x :: l' => acc' ← body acc x; for_range body acc' l'
  end.

(* ================================================================== *)
(** ** monitor.go *)

(** The struct, without its two mutexes and without
    [RandomStartTimeMillis], which only delays a lane's first probe.
    In [runners], a missing key stands for Go's nil channel: the only
    values ever stored come from [make]. *)
Record Monitor : Type := mkMonitor {
  Monitor_StatusListener : option StatusListener;
    (* the field [StatusListener]; [None] is nil *)
  configs : list Config;
  states : gmap string State;
  runners : gmap string chan;
  started : bool
}.

Definition set_StatusListener (v : option StatusListener) (h : Monitor)
    : Monitor :=
  {| Monitor_StatusListener := v; configs := configs h;
     states := states h; runners := runners h; started := started h |}.

Definition set_configs (v : list Config) (h : Monitor) : Monitor :=
  {| Monitor_StatusListener := Monitor_StatusListener h; configs := v;
     states := states h; runners := runners h; started := started h |}.

Definition set_states (v : gmap string State) (h : Monitor) : Monitor :=
  {| Monitor_StatusListener := Monitor_StatusListener h;
     configs := configs h; states := v; runners := runners h;
     started := started h |}.

Definition set_runners (v : gmap string chan) (h : Monitor) : Monitor :=
  {| Monitor_StatusListener := Monitor_StatusListener h;
     configs := configs h; states := states h; runners := v;
     started := started h |}.

Definition set_started (v : bool) (h : Monitor) : Monitor :=
  {| Monitor_StatusListener := Monitor_StatusListener h;
     configs := configs h; states := states h; runners := runners h;
     started := v |}.

Definition New : Monitor :=
  {| Monitor_StatusListener := None; configs := []; states := ∅;
     runners := ∅; started := false |}.

(** *** AddCheck *)

(** The inner loop, [for _, c := range cfg], for one [existing]. *)
Fixpoint AddCheck_cfg (existing : Config) (cfg : list Config) : error :=
  match cfg with
  | [] => None
  | c :: cfg' =>
      if decide (config.Name c = config.Name existing)
      then Some ("config with name " +:+ config.Name c +:+ " already exists")
      else AddCheck_cfg existing cfg'
  end.

(** The outer loop, [for _, existing := range h.configs]. *)
Fixpoint AddCheck_configs (registered cfg : list Config) : error :=
  match registered with
  | [] => None
  | existing :: registered' =>
      match AddCheck_cfg existing cfg with
      | Some e => Some e
      | None => AddCheck_configs registered' cfg
      end
  end.

Definition AddCheck (h : Monitor) (cfg : list Config) : Monitor * error :=
  match AddCheck_configs (configs h) cfg with
  | Some e => (h, Some e)
  | None => (set_configs (configs h ++ cfg) h, None)
  end.

(** *** StopCheck *)

Definition StopCheck (h : Monitor) (name : string) : Go (Monitor * error) :=
  match runners h !! name with
  | Some stop =>
      _ ← close stop;
      let h := set_runners (delete name (runners h)) h in
      (* Reset state *)
      let h := set_states (delete name (states h)) h in
      mret (h, None)
  | None =>
      mret (h, Some ("failed to find check with name " +:+ name))
  end.

(** *** RemoveCheck *)

(** [for idx, existing := range h.configs], from index [idx] on. *)
Fixpoint RemoveCheck_range (h : Monitor) (cfg : Config) (idx : nat)
    (rest : list Config) : Go (Monitor * error) :=
  match rest with
  | [] => mret (h, Some ("no check found with name " +:+ config.Name cfg))
  | existing :: rest' =>
      if decide (config.Name cfg = config.Name existing) then
        if started h then
          '(h, err) ← StopCheck h (config.Name cfg);
          match err with
          | Some e => mret (h, Some e)
          | None =>
              mret (set_configs
                      (take idx (configs h) ++ drop (S idx) (configs h)) h,
                    None)
          end
        else
          mret (set_configs
                  (take idx (configs h) ++ drop (S idx) (configs h)) h,
                None)
      else RemoveCheck_range h cfg (S idx) rest'
  end.

Definition RemoveCheck (h : Monitor) (cfg : Config) : Go (Monitor * error) :=
  RemoveCheck_range h cfg 0%nat (configs h).

(** *** Start, StartCheck *)

(** The lane itself is the goroutine [go func() {...}()]; its probe
    invocations are the [checkFunc] steps below. *)
Definition startRunner (cfg : Config) (stop : chan) : Go unit :=
  go_ (go_lane cfg stop).

Definition startRunnerForConfig (h : Monitor) (c : Config) : Go Monitor :=
  stop ← make_chan;
  _ ← startRunner c stop;
  mret (set_runners (<[config.Name c := stop]> (runners h)) h).

Definition Start (h : Monitor) : Go (Monitor * error) :=
  if started h then mret (h, Some "monitor already started")
  else
    let h := set_started true h in
    h ← for_range startRunnerForConfig h (configs h);
    mret (h, None).

(** [found] after the loop: the last descriptor with that name. *)
Fixpoint StartCheck_found (name : string) (found : option Config)
    (rest : list Config) : option Config :=
  match rest with
  | [] => found
  | existing :: rest' =>
      StartCheck_found name
        (if decide (name = config.Name existing) then Some existing
         else found) rest'
  end.

Definition StartCheck (h : Monitor) (name : string) : Go (Monitor * error) :=
  match StartCheck_found name None (configs h) with
  | None => mret (h, Some ("failed to find check with name " +:+ name))
  | Some found =>
      match runners h !! name with
      | Some _ => mret (h, Some "check already running")
      | None => h ← startRunnerForConfig h found; mret (h, None)
      end
  end.

(** *** Stop, State *)

Definition safeResetStates (h : Monitor) : Monitor := set_states ∅ h.

(** [for k, v := range h.states { statesCopy[k] = v }] *)
Definition safeGetStates (h : Monitor) : gmap string State :=
  map_fold (λ k v statesCopy, <[k := v]> statesCopy) ∅ (states h).

(** Go leaves the order of [range] over a map unspecified; the order of
    [map_to_list] is one of the possible ones. *)
Definition Stop (h : Monitor) : Go (Monitor * error) :=
  _ ← for_range (λ (_ : unit) (kv : string * chan), close kv.2) tt
        (map_to_list (runners h));
  (* time.Sleep(time.Second) *)
  (* Reset runner map *)
  let h := set_runners ∅ h in
  (* Reset states *)
  let h := safeResetStates h in
  let h := set_started false h in
  mret (h, None).

(** The method [State()]; the record has taken the name. *)
Definition Monitor_State (h : Monitor) : gmap string State * error :=
  (safeGetStates h, None).

(** *** The lane's probe invocation *)

Definition handleStatusListener (h : Monitor) (stateEntry : ptr)
    (now : Time) : Go unit :=
  entry ← load stateEntry;
  (* get the previous state *)
  let prevState := default zero_State (states h !! Name entry) in
  (* state is failure *)
  if isFailure entry then
    _ ← (if negb (isFailure prevState) then
           (* new failure: previous state was ok *)
           _ ← match Monitor_StatusListener h with
               | Some l => go_ (go_CheckFailed l stateEntry)
               | None => mret tt
               end;
           modify stateEntry (set_TimeOfFirstFailure now)
         else
           (* carry the time of first failure from the previous state *)
           _ ← modify stateEntry
                 (set_TimeOfFirstFailure (TimeOfFirstFailure prevState));
           match Monitor_StatusListener h with
           | Some l =>
               go_ (go_StillFailing l stateEntry
                      (ContiguousFailures prevState))
           | None => mret tt
           end);
    modify stateEntry
      (set_ContiguousFailures (add64 (ContiguousFailures prevState) 1))
  else if isFailure prevState then
    (* recovery, previous state was failure *)
    let failureSeconds := Seconds (Sub now (TimeOfFirstFailure prevState)) in
    match Monitor_StatusListener h with
    | Some l =>
        go_ (go_CheckRecovered l stateEntry
               (ContiguousFailures prevState) failureSeconds)
    | None => mret tt
    end
  else mret tt.

(** [now] is the reading of the one [time.Now()] that
    [handleStatusListener] may take. *)
Definition safeUpdateState (h : Monitor) (stateEntry : ptr) (now : Time)
    : Go Monitor :=
  (* dispatch any status listeners *)
  _ ← handleStatusListener h stateEntry now;
  (* update states here *)
  entry ← load stateEntry;
  mret (set_states (<[Name entry := entry]> (states h)) h).

(** What one probe invocation reads from outside: the result of
    [cfg.Checker.Status()], the reading of [time.Now()] that becomes
    [CheckTime], and the later reading taken inside
    [handleStatusListener]. *)
Record Observation : Type := mkObservation {
  data : any;
  err : error;
  checkTime : Time;
  detectTime : Time
}.

Definition checkFunc (h : Monitor) (cfg : Config) (o : Observation)
    : Go Monitor :=
  stateEntry ← new_State
    {| Name := config.Name cfg; Status := "ok"; Err := "";
       Details := data o; CheckTime := checkTime o;
       ContiguousFailures := 0; TimeOfFirstFailure := zero_Time |};
  _ ← match err o with
      | Some msg =>
          _ ← modify stateEntry (set_Err msg);
          modify stateEntry (set_Status "failed")
      | None => mret tt
      end;
  h ← safeUpdateState h stateEntry (detectTime o);
  _ ← match config.OnComplete cfg with
      | Some f => go_ (go_OnComplete f stateEntry)
      | None => mret tt
      end;
  mret h.

(* ================================================================== *)
(** ** Histories of the scheduler *)

(** The operations a caller of the package has. *)
Inductive method : Type :=
| m_AddCheck (cfg : list Config)
| m_RemoveCheck (cfg : Config)
| m_Start
| m_StartCheck (name : string)
| m_StopCheck (name : string)
| m_Stop
| m_State
| m_set_StatusListener (l : option StatusListener).
    (* [mon.StatusListener = l]: the field is exported *)

Definition invoke (h : Monitor) (m : method) : Go (Monitor * error) :=
  match m with
  | m_AddCheck cfg => mret (AddCheck h cfg)
  | m_RemoveCheck cfg => RemoveCheck h cfg
  | m_Start => Start h
  | m_StartCheck name => StartCheck h name
  | m_StopCheck name => StopCheck h name
  | m_Stop => Stop h
  | m_State => mret (h, (Monitor_State h).2)
  | m_set_StatusListener l => mret (set_StatusListener l h, None)
  end.

(** One step of a history: a method call, or one probe invocation of
    some lane.  A lane for [cfg] is not required to be running, so the
    histories also cover a probe still in flight when its lane is
    stopped. *)
Inductive event : Type :=
| Call (m : method)
| Probe (cfg : Config) (o : Observation).

Definition step (h : Monitor) (e : event) : Go Monitor :=
  match e with
  | Call m => '(h, _) ← invoke h m; mret h
  | Probe cfg o => checkFunc h cfg o
  end.

Definition run (h : Monitor) (es : list event) : Go Monitor :=
  for_range step h es.

Definition is_Probe (e : event) : bool :=
  match e with Probe _ _ => true | Call _ => false end.

(** Number of probe invocations in a history. *)
Definition probes (es : list event) : Z :=
  Z.of_nat (length (filter is_Probe es)).

(** A monitor as some history from [New()] leaves it. *)
Definition reachable (h : Monitor) (rt : Runtime) : Prop :=
  ∃ es, run New es Runtime0 = Done h rt.

(** The goroutines a step has started: [spawned] of the runtime after
    it, less those of the runtime before it. *)
Definition started_by (rt rt' : Runtime) : list goroutine :=
  drop (length (spawned rt)) (spawned rt').

Definition is_notification (g : goroutine) : bool :=
  match g with
  | go_CheckFailed _ _ | go_CheckRecovered _ _ _ _ | go_StillFailing _ _ _ =>
      true
  | go_lane _ _ | go_OnComplete _ _ => false
  end.

(** The listener calls among them. *)
Definition notifications (rt rt' : Runtime) : list goroutine :=
  filter is_notification (started_by rt rt').

(** What a returned call gave as its [error]; [None] if it panicked. *)
Definition returned {A : Type} (r : result (A * error)) : option error :=
  match r with
  | Done (_, e) _ => Some e
  | Panic _ => None
  end.

(* ================================================================== *)
(** ** Notions the statements and proofs are written in *)

(** *** The outcome of a probe invocation, as functions of its inputs *)

(** The entry as [checkFunc] builds it, before the detector sees it. *)
Definition candidate (cfg : Config) (o : Observation) : State :=
  {| Name := config.Name cfg;
     Status := match err o with Some _ => "failed" | None => "ok" end;
     Err := default "" (err o);
     Details := data o; CheckTime := checkTime o;
     ContiguousFailures := 0; TimeOfFirstFailure := zero_Time |}.

(** The entry as [handleStatusListener] leaves it. *)
Definition detected (prevState entry : State) (now : Time) : State :=
  if isFailure entry then
    set_ContiguousFailures (add64 (ContiguousFailures prevState) 1)
      (set_TimeOfFirstFailure
         (if isFailure prevState then TimeOfFirstFailure prevState else now)
         entry)
  else entry.

(** The listener calls [handleStatusListener] starts. *)
Definition announced (l : option StatusListener) (stateEntry : ptr)
    (prevState entry : State) (now : Time) : list goroutine :=
  match l with
  | None => []
  | Some l =>
      if isFailure entry then
        if isFailure prevState
        then [go_StillFailing l stateEntry (ContiguousFailures prevState)]
        else [go_CheckFailed l stateEntry]
      else if isFailure prevState then
        [go_CheckRecovered l stateEntry (ContiguousFailures prevState)
           (Seconds (Sub now (TimeOfFirstFailure prevState)))]
      else []
  end.

Definition completed (cfg : Config) (stateEntry : ptr) : list goroutine :=
  match config.OnComplete cfg with
  | Some f => [go_OnComplete f stateEntry]
  | None => []
  end.

(** *** Invariants *)

(** Every runner's channel is allocated and open, and no two runners
    share a channel. *)
Definition lanes_ok (h : Monitor) (rt : Runtime) : Prop :=
  (∀ name c, runners h !! name = Some c → chans rt !! c = Some false) ∧
  (∀ n1 n2 c,
     runners h !! n1 = Some c → runners h !! n2 = Some c → n1 = n2).

(** Every stored state is filed under its own name, is ["ok"] or
    ["failed"], and counts no failures when ["ok"]. *)
Definition states_ok (h : Monitor) : Prop :=
  ∀ name s, states h !! name = Some s →
    Name s = name ∧
    (Status s = "ok" ∧ ContiguousFailures s = 0 ∨ Status s = "failed").

(** The failing states count between [1] and [n] failures. *)
Definition streaks_le (n : Z) (h : Monitor) : Prop :=
  ∀ name s, states h !! name = Some s → Status s = "failed" →
    1 ≤ ContiguousFailures s ≤ n.

(** [n] bounds the number of probe invocations so far; the bound on the
    streaks is only there while [int64] has not overflowed. *)
Definition inv (n : Z) (h : Monitor) (rt : Runtime) : Prop :=
  0 ≤ n ∧ lanes_ok h rt ∧ states_ok h ∧ (n ≤ max_int64 → streaks_le n h).

(** *** Error messages *)

Definition already_exists (c : Config) : string :=
  "config with name " +:+ config.Name c +:+ " already exists".

(** *** What the methods decide on *)

(** The registry, the runners, the started flag and the channels.  The
    store of states is not part of it. *)
Definition control (h : Monitor) (rt : Runtime)
    : list Config * gmap string chan * bool * list bool :=
  (configs h, runners h, started h, chans rt).

(** A call's error and the control it leaves; [None] if it panicked. *)
Definition outcome (r : result (Monitor * error))
    : option (error * (list Config * gmap string chan * bool * list bool)) :=
  match r with
  | Done (h, e) rt => Some (e, control h rt)
  | Panic _ => None
  end.

Definition outcome_run (r : result Monitor)
    : option (list Config * gmap string chan * bool * list bool) :=
  match r with
  | Done h rt => Some (control h rt)
  | Panic _ => None
  end.

(** The method calls of a history, in order. *)
Fixpoint calls_of (es : list event) : list method :=
  match es with
  | [] => []
  | Call m :: es' => m :: calls_of es'
  | Probe _ _ :: es' => calls_of es'
  end.

(** *** Scenarios *)

(** The monitor and runtime that a history from [New()] leaves. *)
Definition after (es : list event) : Monitor * Runtime :=
  match run New es Runtime0 with
  | Done h rt => (h, rt)
  | Panic _ => (New, Runtime0)
  end.

(** Two checks on a 100ms interval, as in the package's tests. *)
Definition check_a : Config :=
  {| config.Name := "a"; config.Checker := 0%nat;
     config.Interval := 100000000; config.OnComplete := None |}.

Definition check_b : Config :=
  {| config.Name := "b"; config.Checker := 1%nat;
     config.Interval := 100000000; config.OnComplete := Some 0%nat |}.

(** Observations of the test's [mockChecker]; the detector reads the
    clock one microsecond after the entry's [CheckTime] was read. *)
Definition ok_at (t : Time) : Observation :=
  {| data := any_string "Working just fine"; err := None;
     checkTime := t; detectTime := t + 1000 |}.

Definition failed_at (t : Time) : Observation :=
  {| data := any_string ""; err := Some "failure";
     checkTime := t; detectTime := t + 1000 |}.

(** A listener is attached, both checks are registered and started. *)
Definition started_history : list event :=
  [Call (m_set_StatusListener (Some 7%nat));
   Call (m_AddCheck [check_a; check_b]);
   Call m_Start].

(** ... check [a] has passed once, at 0.1s *)
Definition passing_history : list event :=
  started_history ++ [Probe check_a (ok_at 100000000);
                      Probe check_b (ok_at 100000000)].

(** ... and has then failed twice, at 0.2s and at 0.3s. *)
Definition failing_history : list event :=
  passing_history ++ [Probe check_a (failed_at 200000000);
                      Probe check_a (failed_at 300000000)].

(** The state of [a] after [failing_history]. *)
Definition failing_a : State :=
  {| Name := "a"; Status := "failed"; Err := "failure";
     Details := any_string ""; CheckTime := 300000000;
     ContiguousFailures := 2; TimeOfFirstFailure := 200001000 |}.

(* ================================================================== *)
(** ** Further notions *)

(** *** Histories *)

(** Every call of [AddCheck] in the history passes descriptors of
    pairwise different names. *)
Definition distinct_batches (es : list event) : Prop :=
  ∀ cfg, Call (m_AddCheck cfg) ∈ es → NoDup (config.Name <$> cfg).

(** The lanes among the goroutines. *)
Definition is_lane (g : goroutine) : bool :=
  match g with go_lane _ _ => true | _ => false end.

(** The calls of completion hooks among them. *)
Definition is_completion (g : goroutine) : bool :=
  match g with go_OnComplete _ _ => true | _ => false end.

(* ================================================================== *)
(** ** checks/http.go *)

(** [http.Client], as far as the check touches it: it sets [Timeout]
    and leaves the other fields alone. *)
Module http.

Record Client : Type := mkClient {
  Transport : option nat;
  CheckRedirect : option nat;
  Jar : option nat;
  Timeout : Duration
}.

Definition set_Timeout (v : Duration) (c : Client) : Client :=
  {| Transport := Transport c; CheckRedirect := CheckRedirect c;
     Jar := Jar c; Timeout := v |}.

Definition StatusOK : Z := 200.

End http.

Module checks.

Definition defaultHTTPTimeout : Duration := 3 * 1000000000.

(** [URL] is [None] for nil and otherwise what [URL.String()] gives;
    [Client] is a pointer into the [http.Client] objects. *)
Record HTTPConfig : Type := mkHTTPConfig {
  URL : option string;
  StatusCode : Z;
  Client : option nat;
  Timeout : Duration
}.

Definition set_StatusCode (v : Z) (h : HTTPConfig) : HTTPConfig :=
  {| URL := URL h; StatusCode := v; Client := Client h;
     Timeout := Timeout h |}.

Definition set_Timeout (v : Duration) (h : HTTPConfig) : HTTPConfig :=
  {| URL := URL h; StatusCode := StatusCode h; Client := Client h;
     Timeout := v |}.

Definition set_Client (v : option nat) (h : HTTPConfig) : HTTPConfig :=
  {| URL := URL h; StatusCode := StatusCode h; Client := v;
     Timeout := Timeout h |}.

(** [Config] is a pointer to the caller's [HTTPConfig]; the record
    holds what it points to. *)
Record HTTP : Type := mkHTTP { Config : HTTPConfig }.

(** [prepare] works on the struct behind [h] and on the client behind
    [h.Client]: it returns the struct and the client objects as it
    leaves them. *)
Definition prepare (h : HTTPConfig) (clients : list http.Client)
    : HTTPConfig * error * list http.Client :=
  match URL h with
  | None => (h, Some "URL cannot be nil", clients)
  | Some _ =>
      (* Default StatusCode to 200 *)
      let h := if decide (StatusCode h = 0)
               then set_StatusCode http.StatusOK h else h in
      let h := if decide (Timeout h = 0)
               then set_Timeout defaultHTTPTimeout h else h in
      match Client h with
      | None =>
          (set_Client (Some (length clients)) h, None,
           clients ++ [{| http.Transport := None; http.CheckRedirect := None;
                          http.Jar := None; http.Timeout := Timeout h |}])
      | Some c =>
          (h, None, alter (http.set_Timeout (Timeout h)) c clients)
      end
  end.

(** [cfg] is [None] for the nil pointer. *)
Definition NewHTTP (cfg : option HTTPConfig) (clients : list http.Client)
    : option HTTP * error * list http.Client :=
  match cfg with
  | None => (None, Some "passed in config cannot be nil", clients)
  | Some cfg =>
      match prepare cfg clients with
      | (_, Some e, clients) =>
          (None, Some ("unable to prepare given config: " +:+ e), clients)
      | (cfg, None, clients) => (Some {| Config := cfg |}, None, clients)
      end
  end.

(** What one [Status()] call gets from outside: from
    [http.NewRequest], whether the request is non-nil, and the error;
    from [Client.Do], an error or the status code of the response; and
    the two readings of the clock. *)
Record Exchange : Type := mkExchange {
  request : bool * error;
  response : string + Z;
  start : Time;
  finish : Time
}.

Inductive returns (A : Type) : Type :=
| Returns (a : A)
| Panics (msg : string).
Arguments Returns {A} a.
Arguments Panics {A} msg.

Definition nil_dereference : string :=
  "invalid memory address or nil pointer dereference".

(** The response is represented by its [StatusCode]. *)
Definition do (h : HTTP) (x : Exchange) : returns (option Z * error) :=
  match URL (Config h) with
  | None => Panics nil_dereference          (* h.Config.URL.String() *)
  | Some _ =>
      let '(req, err) := request x in
      if negb req then Panics nil_dereference   (* req.Close = true *)
      else
        match err with
        | Some e =>
            Returns (None, Some ("unable to create new HTTP request for check: "
                                   +:+ e))
        | None =>
            match Client (Config h) with
            | None => Panics nil_dereference    (* h.Config.Client.Do(req) *)
            | Some _ =>
                match response x with
                | inl e =>
                    Returns (None, Some ("errors during check request: " +:+ e))
                | inr code => Returns (Some code, None)
                end
            end
        end
  end.

Definition Status (h : HTTP) (x : Exchange) : returns (any * error) :=
  match do h x with
  | Panics msg => Panics msg
  | Returns (_, Some e) => Returns (any_nil, Some e)
  | Returns (None, None) => Panics nil_dereference      (* resp.Body *)
  | Returns (Some code, None) =>
      (* Check if StatusCode matches *)
      if decide (code ≠ StatusCode (Config h)) then
        Returns (any_nil,
                 Some ("received status code '" +:+ pretty code
                         +:+ "' does not match expected status code '"
                         +:+ pretty (StatusCode (Config h)) +:+ "'"))
      else Returns (any_Duration (Sub (finish x) (start x)), None)
  end.

End checks.

(* ================================================================== *)
(** ** monitor_test.go: the mock checker *)

Record mockChecker : Type := mkMockChecker {
  failAfter : Z;
  checks_done : Z;        (* the field [checks] *)
  recoverAfter : Z
}.

(** [Status()] counts the call in place: the checker comes back with
    the result.  Go's [int] is taken to be 64 bits wide. *)
Definition mockChecker_Status (mc : mockChecker)
    : mockChecker * (any * error) :=
  let mc := {| failAfter := failAfter mc;
               checks_done := add64 (checks_done mc) 1;
               recoverAfter := recoverAfter mc |} in
  if bool_decide (checks_done mc ≤ failAfter mc)
     || bool_decide (recoverAfter mc ≤ checks_done mc)
  then (mc, (any_string "Working just fine", None))
  else (mc, (any_string "", Some "failure")).

(** The probe invocations of a lane whose checker is the mock, one per
    pair of clock readings. *)
Fixpoint mock_lane (h : Monitor) (cfg : Config) (mc : mockChecker)
    (clock : list (Time * Time)) : Go (Monitor * mockChecker) :=
  match clock with
  | [] => mret (h, mc)
  | (t, t') :: clock' =>
      let '(mc, (d, e)) := mockChecker_Status mc in
      h ← checkFunc h cfg
            {| data := d; err := e; checkTime := t; detectTime := t' |};
      mock_lane h cfg mc clock'
  end.

(** What the mock's [k]-th call returns, as an observation taken at
    the clock readings [tt]; [k] counts from 1 and stays below
    [2^63]. *)
Definition mock_observation (failAfter recoverAfter : Z) (k : Z)
    (tt : Time * Time) : Observation :=
  if bool_decide (k ≤ failAfter) || bool_decide (recoverAfter ≤ k)
  then {| data := any_string "Working just fine"; err := None;
          checkTime := tt.1; detectTime := tt.2 |}
  else {| data := any_string ""; err := Some "failure";
          checkTime := tt.1; detectTime := tt.2 |}.

(* ================================================================== *)
(** ** Further scenarios *)

(** A listener is attached and both checks are registered; nothing is
    started. *)
Definition registered_history : list event :=
  [Call (m_set_StatusListener (Some 7%nat));
   Call (m_AddCheck [check_a; check_b])].

(** After [failing_history], the lane of [a] is stopped ... *)
Definition stopped_a_history : list event :=
  failing_history ++ [Call (m_StopCheck "a")].

(** ... and [a] is then to be removed, which the started monitor
    refuses. *)
Definition refused_history : list event :=
  stopped_a_history ++ [Call (m_RemoveCheck check_a)].

Definition at_registered : Monitor * Runtime := after registered_history.
Definition at_started : Monitor * Runtime := after started_history.
Definition at_passing : Monitor * Runtime := after passing_history.
Definition at_failing : Monitor * Runtime := after failing_history.
Definition at_stopped_a : Monitor * Runtime := after stopped_a_history.
Definition at_refused : Monitor * Runtime := after refused_history.

(** A streak of [a]: failures at 0.2s, 0.3s and 0.4s. *)
Definition first_failure : Observation := failed_at 200000000.

Definition more_failures : list Observation :=
  [failed_at 300000000; failed_at 400000000].

(** Clock readings of a lane on a 100ms ticker, from [t] on; the
    detector reads the clock one microsecond after the entry's
    [CheckTime]. *)
Definition ticks (t : Time) (n : nat) : list (Time * Time) :=
  (λ i : nat, (t + Z.of_nat i * 100000000,
               t + Z.of_nat i * 100000000 + 1000)) <$> seq 0 n.

(** An HTTP check of a local health endpoint, as given and as
    [NewHTTP] prepares it, and two exchanges with the server. *)
Definition local_config : checks.HTTPConfig :=
  {| checks.URL := Some "http://localhost:8080/health";
     checks.StatusCode := 0; checks.Client := None; checks.Timeout := 0 |}.

Definition local_prepared : checks.HTTPConfig :=
  {| checks.URL := Some "http://localhost:8080/health";
     checks.StatusCode := 200; checks.Client := Some 0%nat;
     checks.Timeout := 3000000000 |}.

Definition local_client : http.Client :=
  {| http.Transport := None; http.CheckRedirect := None; http.Jar := None;
     http.Timeout := 3000000000 |}.

Definition local_check : checks.HTTP := {| checks.Config := local_prepared |}.

Definition unavailable : checks.Exchange :=
  {| checks.request := (true, None); checks.response := inr 503;
     checks.start := 100000000; checks.finish := 104000000 |}.

(* ================================================================== *)
(** ** Arithmetic of [int64] *)

Lemma wrap64_id (z : Z) : min_int64 ≤ z ≤ max_int64 → wrap64 z = z.
Proof.
  unfold wrap64, min_int64, max_int64. intros Hz.
  rewrite Z.mod_small; lia.
Qed.

Lemma add64_1 (z : Z) : 0 ≤ z < max_int64 → add64 z 1 = z + 1.
Proof.
  intros Hz. apply wrap64_id. unfold min_int64, max_int64 in *. lia.
Qed.

(* ================================================================== *)
(** ** One probe invocation, in closed form *)

(** The objects of the heap are only ever addressed at the index the
    allocation returned. *)
Lemma heap_lookup_new {A} (l : list A) (x : A) :
  (l ++ [x]) !! length l = Some x.
Proof. by apply list_lookup_middle. Qed.

Lemma heap_insert_new {A} (l : list A) (x y : A) :
  <[length l := y]> (l ++ [x]) = l ++ [y].
Proof.
  rewrite insert_app_r_alt by lia.
  by replace (length l - length l)%nat with 0%nat by lia.
Qed.

Lemma isFailure_candidate (cfg : Config) (o : Observation) :
  isFailure (candidate cfg o) = bool_decide (is_Some (err o)).
Proof.
  unfold isFailure, candidate; simpl. by destruct (err o).
Qed.

Lemma checkFunc_Done (h : Monitor) (cfg : Config) (o : Observation)
    (rt : Runtime) :
  let prevState := default zero_State (states h !! config.Name cfg) in
  let entry := detected prevState (candidate cfg o) (detectTime o) in
  checkFunc h cfg o rt =
    Done (set_states (<[config.Name cfg := entry]> (states h)) h)
         {| chans := chans rt;
            heap := heap rt ++ [entry];
            spawned := spawned rt
              ++ announced (Monitor_StatusListener h) (length (heap rt))
                   prevState (candidate cfg o) (detectTime o)
              ++ completed cfg (length (heap rt)) |}.
Proof.
  intros prevState entry. subst entry.
  unfold detected, announced, completed.
  rewrite isFailure_candidate.
  unfold checkFunc, safeUpdateState, handleStatusListener, candidate.
  unfold mbind, mret, Go_bind, Go_ret, new_State, modify, load, go_.
  destruct (err o) as [msg|] eqn:Herr; simpl;
    repeat (rewrite ?heap_lookup_new, ?heap_insert_new; simpl);
    fold prevState;
    destruct (isFailure prevState) eqn:Hprev;
    destruct (Monitor_StatusListener h) as [l|];
    destruct (config.OnComplete cfg) as [f|];
    simpl;
    repeat (rewrite ?heap_lookup_new, ?heap_insert_new; simpl);
    rewrite ?Hprev, ?app_nil_r, <- ?app_assoc; reflexivity.
Qed.

(* ================================================================== *)
(** ** Invariants of the reachable monitors *)

Lemma inv_New : inv 0 New Runtime0.
Proof.
  unfold inv, lanes_ok, states_ok, streaks_le.
  repeat split; try done; intros *; simpl; rewrite ?lookup_empty; done.
Qed.

Lemma StopCheck_running (h : Monitor) (name : string) (stop : chan)
    (rt : Runtime) :
  runners h !! name = Some stop → chans rt !! stop = Some false →
  StopCheck h name rt =
    Done (set_states (delete name (states h))
            (set_runners (delete name (runners h)) h), None)
         {| chans := <[stop := true]> (chans rt); heap := heap rt;
            spawned := spawned rt |}.
Proof.
  intros Hrun Hopen. unfold StopCheck, close. rewrite Hrun.
  unfold mbind, mret, Go_bind, Go_ret. by rewrite Hopen.
Qed.

Lemma StopCheck_not_running (h : Monitor) (name : string) (rt : Runtime) :
  runners h !! name = None →
  StopCheck h name rt =
    Done (h, Some ("failed to find check with name " +:+ name)) rt.
Proof. intros Hrun. unfold StopCheck. by rewrite Hrun. Qed.

Lemma startRunnerForConfig_Done (h : Monitor) (c : Config) (rt : Runtime) :
  startRunnerForConfig h c rt =
    Done (set_runners (<[config.Name c := length (chans rt)]> (runners h)) h)
         {| chans := chans rt ++ [false]; heap := heap rt;
            spawned := spawned rt ++ [go_lane c (length (chans rt))] |}.
Proof. reflexivity. Qed.

(** The loop of [Stop] over channels that are open and distinct: it
    closes them all and no other. *)
Lemma close_range (l : list (string * chan)) (rt : Runtime) :
  NoDup l.*2 →
  (∀ kv, kv ∈ l → chans rt !! kv.2 = Some false) →
  ∃ cs, for_range (λ (_ : unit) (kv : string * chan), close kv.2) tt l rt =
          Done tt {| chans := cs; heap := heap rt; spawned := spawned rt |}
        ∧ (∀ c, c ∉ l.*2 → cs !! c = chans rt !! c)
        ∧ (∀ c, c ∈ l.*2 → cs !! c = Some true).
Proof.
  revert rt. induction l as [|[k c] l IH]; intros rt Hnd Hopen.
  - exists (chans rt). split; [by destruct rt|]. split; [done|].
    intros c Hc. by apply elem_of_nil in Hc.
  - apply NoDup_cons in Hnd as [Hc Hnd].
    assert (Hk : chans rt !! c = Some false) by (apply (Hopen (k, c)); left).
    simpl. unfold mbind, Go_bind, close at 1. simpl. rewrite Hk.
    set (rt1 := {| chans := <[c := true]> (chans rt); heap := heap rt;
                   spawned := spawned rt |}).
    destruct (IH rt1 Hnd) as (cs & Hrun & Hcs & Hclosed).
    + intros kv Hkv. simpl.
      rewrite list_lookup_insert_ne.
      * apply Hopen. by right.
      * intros ->. apply Hc. apply list_elem_of_fmap. by exists kv.
    + exists cs. split; [exact Hrun|]. split.
      * intros c' Hc'. apply not_elem_of_cons in Hc' as [Hne Hc'].
        rewrite (Hcs c' Hc'). simpl. by rewrite list_lookup_insert_ne.
      * intros c' [->|Hc']%elem_of_cons; [|by apply Hclosed].
        rewrite (Hcs c Hc). simpl. apply list_lookup_insert_eq.
        by apply lookup_lt_Some in Hk.
Qed.

Lemma lanes_ok_NoDup (h : Monitor) (rt : Runtime) :
  lanes_ok h rt → NoDup (map_to_list (runners h)).*2.
Proof.
  intros [_ Hinj]. apply NoDup_fmap_2_strong; [|apply NoDup_map_to_list].
  intros [n1 c1] [n2 c2] H1 H2 Heq; simpl in Heq; subst c2.
  apply elem_of_map_to_list in H1, H2. by rewrite (Hinj n1 n2 c1).
Qed.

Lemma Stop_Done (h : Monitor) (rt : Runtime) :
  lanes_ok h rt →
  ∃ cs, Stop h rt =
          Done (set_started false (safeResetStates (set_runners ∅ h)), None)
               {| chans := cs; heap := heap rt; spawned := spawned rt |}
        ∧ ∀ name c, runners h !! name = Some c → cs !! c = Some true.
Proof.
  intros Hok.
  destruct (close_range (map_to_list (runners h)) rt)
    as (cs & Hrun & _ & Hclosed).
  - by eapply lanes_ok_NoDup.
  - intros [k c] Hkv. apply elem_of_map_to_list in Hkv.
    destruct Hok as [Hopen _]. by eapply Hopen.
  - exists cs. split.
    + unfold Stop, mbind, Go_bind. by rewrite Hrun.
    + intros name c Hc. apply Hclosed. apply list_elem_of_fmap.
      exists (name, c). split; [done|]. by apply elem_of_map_to_list.
Qed.

Lemma detected_candidate (prevState : State) (cfg : Config)
    (o : Observation) (now : Time) :
  detected prevState (candidate cfg o) now =
    match err o with
    | Some msg =>
        {| Name := config.Name cfg; Status := "failed"; Err := msg;
           Details := data o; CheckTime := checkTime o;
           ContiguousFailures := add64 (ContiguousFailures prevState) 1;
           TimeOfFirstFailure :=
             if isFailure prevState then TimeOfFirstFailure prevState
             else now |}
    | None =>
        {| Name := config.Name cfg; Status := "ok"; Err := "";
           Details := data o; CheckTime := checkTime o;
           ContiguousFailures := 0; TimeOfFirstFailure := zero_Time |}
    end.
Proof.
  unfold detected. rewrite isFailure_candidate. unfold candidate.
  by destruct (err o).
Qed.

Lemma inv_StopCheck (n : Z) (h : Monitor) (name : string) (rt : Runtime) :
  inv n h rt →
  ∃ h' e rt', StopCheck h name rt = Done (h', e) rt' ∧ inv n h' rt'
    ∧ configs h' = configs h ∧ started h' = started h.
Proof.
  intros (Hn & [Hopen Hinj] & Hst & Hle).
  destruct (runners h !! name) as [stop|] eqn:Hrun.
  - eexists _, _, _. split.
    { apply StopCheck_running; [done | by eapply Hopen]. }
    split; [|done].
    refine (conj Hn (conj (conj _ _) (conj _ _)));
      unfold states_ok, streaks_le; simpl.
    + intros name' c [Hne Hc]%lookup_delete_Some.
      rewrite list_lookup_insert_ne; [by eapply Hopen|].
      intros ->. apply Hne. by eapply Hinj.
    + intros n1 n2 c [_ H1]%lookup_delete_Some [_ H2]%lookup_delete_Some.
      by eapply Hinj.
    + intros name' s [_ Hs]%lookup_delete_Some. by apply Hst.
    + intros Hmax name' s [_ Hs]%lookup_delete_Some. by eapply Hle.
  - eexists _, _, _. split; [by apply StopCheck_not_running|].
    by split.
Qed.

Lemma inv_startRunnerForConfig (n : Z) (h : Monitor) (c : Config)
    (rt : Runtime) :
  inv n h rt →
  ∃ h' rt', startRunnerForConfig h c rt = Done h' rt' ∧ inv n h' rt'
    ∧ configs h' = configs h ∧ started h' = started h.
Proof.
  intros (Hn & [Hopen Hinj] & Hst & Hle).
  eexists _, _. split; [apply startRunnerForConfig_Done|].
  split; [|done].
  refine (conj Hn (conj (conj _ _) (conj Hst Hle))); simpl.
  - intros name' ch [[<- <-]|[Hne Hc]]%lookup_insert_Some.
    + apply heap_lookup_new.
    + apply lookup_app_l_Some. by eapply Hopen.
  - assert (Hfresh : ∀ name', runners h !! name' ≠ Some (length (chans rt))).
    { intros name' Hc%Hopen. apply lookup_lt_Some in Hc. lia. }
    intros n1 n2 ch [[<- <-]|[Hne1 H1]]%lookup_insert_Some
      [[<- Heq]|[Hne2 H2]]%lookup_insert_Some; try done.
    + by apply Hfresh in H2.
    + subst ch. by apply Hfresh in H1.
    + by eapply Hinj.
Qed.

Lemma inv_Start_range (n : Z) (l : list Config) (h : Monitor)
    (rt : Runtime) :
  inv n h rt →
  ∃ h' rt', for_range startRunnerForConfig h l rt = Done h' rt'
    ∧ inv n h' rt'.
Proof.
  revert h rt. induction l as [|c l IH]; intros h rt Hinv.
  - by eexists _, _.
  - destruct (inv_startRunnerForConfig n h c rt Hinv)
      as (h1 & rt1 & Hrun & Hinv1 & _).
    destruct (IH h1 rt1 Hinv1) as (h2 & rt2 & Hrun2 & Hinv2).
    exists h2, rt2. split; [|done].
    simpl. unfold mbind, Go_bind. by rewrite Hrun.
Qed.

Lemma inv_fields (n : Z) (h h' : Monitor) (rt : Runtime) :
  states h' = states h → runners h' = runners h →
  inv n h rt → inv n h' rt.
Proof.
  unfold inv, lanes_ok, states_ok, streaks_le.
  intros -> ->. done.
Qed.

Lemma inv_RemoveCheck_range (n : Z) (h : Monitor) (cfg : Config)
    (rest : list Config) (idx : nat) (rt : Runtime) :
  inv n h rt →
  ∃ h' e rt', RemoveCheck_range h cfg idx rest rt = Done (h', e) rt'
    ∧ inv n h' rt'.
Proof.
  intros Hinv. revert idx.
  induction rest as [|existing rest IH]; intros idx; simpl.
  - by eexists _, _, _.
  - case_decide; [|apply IH].
    destruct (started h).
    + destruct (inv_StopCheck n h (config.Name cfg) rt Hinv)
        as (h1 & e & rt1 & Hrun & Hinv1 & _).
      unfold mbind, Go_bind. rewrite Hrun.
      destruct e; eexists _, _, _; (split; [reflexivity|]); [done|].
      by eapply inv_fields.
    + eexists _, _, _. split; [reflexivity|]. by eapply inv_fields.
Qed.

Lemma inv_checkFunc (n : Z) (h : Monitor) (cfg : Config) (o : Observation)
    (rt : Runtime) :
  inv n h rt →
  ∃ h' rt', checkFunc h cfg o rt = Done h' rt' ∧ inv (n + 1) h' rt'.
Proof.
  intros (Hn & Hlanes & Hst & Hle).
  eexists _, _. split; [apply checkFunc_Done|].
  rewrite detected_candidate.
  set (prevState := default zero_State (states h !! config.Name cfg)).
  assert (Hprev :
    (Status prevState ≠ "failed" → ContiguousFailures prevState = 0) ∧
    (n + 1 ≤ max_int64 → Status prevState = "failed" →
       1 ≤ ContiguousFailures prevState ≤ n)).
  { subst prevState.
    destruct (states h !! config.Name cfg) as [p|] eqn:Hp; simpl; [|done].
    split.
    - by destruct (Hst _ _ Hp) as [_ [[_ ?]|?]].
    - intros Hmax. eapply Hle; [lia | done]. }
  destruct Hprev as [Hzero Hfail].
  refine (conj _ (conj Hlanes (conj _ _)));
    unfold states_ok, streaks_le; simpl; [lia| |].
  - intros name s [[<- <-]|[_ Hs]]%lookup_insert_Some; [|by apply Hst].
    destruct (err o); simpl; auto.
  - intros Hmax name s [[<- <-]|[_ Hs]]%lookup_insert_Some.
    + destruct (err o); simpl; [intros _|done].
      destruct (decide (Status prevState = "failed")) as [Hf|Hf].
      * specialize (Hfail Hmax Hf). rewrite add64_1; lia.
      * rewrite (Hzero Hf). rewrite add64_1; [lia|]. unfold max_int64. lia.
    + intros Hf. assert (n ≤ max_int64) as Hmax' by lia.
      specialize (Hle Hmax' name s Hs Hf). lia.
Qed.

Lemma inv_Stop (n : Z) (h : Monitor) (rt : Runtime) :
  inv n h rt →
  ∃ h' e rt', Stop h rt = Done (h', e) rt' ∧ inv n h' rt'.
Proof.
  intros (Hn & Hlanes & _).
  destruct (Stop_Done h rt Hlanes) as (cs & -> & _).
  eexists _, _, _. split; [reflexivity|].
  refine (conj Hn (conj (conj _ _) (conj _ _)));
    unfold states_ok, streaks_le; intros *; simpl;
    rewrite ?lookup_empty; done.
Qed.

Lemma inv_invoke (n : Z) (h : Monitor) (m : method) (rt : Runtime) :
  inv n h rt →
  ∃ h' e rt', invoke h m rt = Done (h', e) rt' ∧ inv n h' rt'.
Proof.
  intros Hinv. destruct m as [cfg|cfg| |name|name| | |l]; simpl.
  - unfold AddCheck. destruct (AddCheck_configs _ _);
      eexists _, _, _; (split; [reflexivity|]); [done|].
    by eapply inv_fields.
  - by apply inv_RemoveCheck_range.
  - unfold Start. destruct (started h) eqn:Hs.
    + by eexists _, _, _.
    + destruct (inv_Start_range n (configs h) (set_started true h) rt)
        as (h' & rt' & Hrun & Hinv'); [by eapply inv_fields|].
      unfold mbind, Go_bind.
      change (configs (set_started true h)) with (configs h).
      rewrite Hrun. by eexists _, _, _.
  - unfold StartCheck. destruct (StartCheck_found _ _ _) as [found|];
      [|by eexists _, _, _].
    destruct (runners h !! name); [by eexists _, _, _|].
    destruct (inv_startRunnerForConfig n h found rt Hinv)
      as (h' & rt' & Hrun & Hinv' & _).
    unfold mbind, Go_bind. rewrite Hrun. by eexists _, _, _.
  - destruct (inv_StopCheck n h name rt Hinv) as (h' & e & rt' & ? & ? & _).
    by eexists _, _, _.
  - by apply inv_Stop.
  - by eexists _, _, _.
  - eexists _, _, _. split; [reflexivity|]. by eapply inv_fields.
Qed.

Lemma probes_cons (e : event) (es : list event) :
  probes (e :: es) = (if is_Probe e then 1 else 0) + probes es.
Proof.
  unfold probes. rewrite filter_cons.
  destruct (is_Probe e); simpl; [|done].
  destruct (decide (Is_true true)) as [_|[]]; [|done]. simpl length. lia.
Qed.

Lemma probes_nonneg (es : list event) : 0 ≤ probes es.
Proof. unfold probes. lia. Qed.

Lemma inv_step (n : Z) (h : Monitor) (e : event) (rt : Runtime) :
  inv n h rt →
  ∃ h' rt', step h e rt = Done h' rt'
    ∧ inv (n + (if is_Probe e then 1 else 0)) h' rt'.
Proof.
  intros Hinv. destruct e as [m|cfg o]; simpl.
  - destruct (inv_invoke n h m rt Hinv) as (h' & e & rt' & Hrun & Hinv').
    unfold mbind, Go_bind. rewrite Hrun. exists h', rt'.
    by rewrite Z.add_0_r.
  - by apply inv_checkFunc.
Qed.

(** No history panics, and the invariant holds all along. *)
Lemma inv_run (es : list event) (n : Z) (h : Monitor) (rt : Runtime) :
  inv n h rt →
  ∃ h' rt', run h es rt = Done h' rt' ∧ inv (n + probes es) h' rt'.
Proof.
  revert n h rt. induction es as [|e es IH]; intros n h rt Hinv.
  - exists h, rt. split; [done|]. by rewrite Z.add_0_r.
  - destruct (inv_step n h e rt Hinv) as (h1 & rt1 & Hrun1 & Hinv1).
    destruct (IH _ h1 rt1 Hinv1) as (h2 & rt2 & Hrun2 & Hinv2).
    exists h2, rt2. split.
    + unfold run in *. simpl. unfold mbind, Go_bind. by rewrite Hrun1.
    + by rewrite probes_cons, Z.add_assoc.
Qed.

Lemma reachable_lanes_ok (h : Monitor) (rt : Runtime) :
  reachable h rt → lanes_ok h rt.
Proof.
  intros [es Hrun].
  destruct (inv_run es 0 New Runtime0 inv_New) as (h' & rt' & Hrun' & Hinv).
  rewrite Hrun in Hrun'. injection Hrun' as <- <-. apply Hinv.
Qed.

Lemma reachable_states_ok (h : Monitor) (rt : Runtime) :
  reachable h rt → states_ok h.
Proof.
  intros [es Hrun].
  destruct (inv_run es 0 New Runtime0 inv_New) as (h' & rt' & Hrun' & Hinv).
  rewrite Hrun in Hrun'. injection Hrun' as <- <-. apply Hinv.
Qed.

(** [safeGetStates] copies the store key by key: the copy is equal to
    the store. *)
Lemma safeGetStates_eq (h : Monitor) : safeGetStates h = states h.
Proof.
  unfold safeGetStates.
  apply (map_fold_weak_ind
    (λ (r : gmap string State) (m : gmap string State), r = m)).
  - done.
  - intros k v m r _ ->. done.
Qed.

(* ================================================================== *)
(** ** The transition detector *)

(** What a probe invocation leaves in the store under the check's
    name, and where: the object of the heap that the listener and the
    hook were handed a pointer to. *)
Lemma checkFunc_stored (h : Monitor) (cfg : Config) (o : Observation)
    (rt : Runtime) :
  let prevState := default zero_State (states h !! config.Name cfg) in
  let entry := detected prevState (candidate cfg o) (detectTime o) in
  ∃ h' rt',
    checkFunc h cfg o rt = Done h' rt' ∧
    states h' !! config.Name cfg = Some entry ∧
    heap rt' !! length (heap rt) = Some entry ∧
    notifications rt rt' =
      announced (Monitor_StatusListener h) (length (heap rt)) prevState
        (candidate cfg o) (detectTime o).
Proof.
  pose proof (checkFunc_Done h cfg o rt) as Hrun. cbv zeta in Hrun.
  remember (default zero_State (states h !! config.Name cfg)) as p eqn:Hp.
  intros prevState entry. subst prevState entry.
  eexists _, _. split; [exact Hrun|]. simpl. split; [|split].
  - apply lookup_insert_eq.
  - apply heap_lookup_new.
  - unfold notifications, started_by; simpl.
    rewrite drop_app_length, filter_app.
    unfold announced, completed.
    by destruct (Monitor_StatusListener h), (isFailure (candidate cfg o)),
      (isFailure p), (config.OnComplete cfg).
Qed.

(** C2: when the new observation is failed and the stored state of the
    check is failing too, the stored state that replaces it keeps the
    previous time of first failure, counts one failure more than the
    previous one ([int64] addition; the mathematical successor while
    the count is below the largest [int64]), and exactly one listener
    call is started, [StillFailing], on the new entry and with the
    previous count. *)
Theorem C2_still_failing (h : Monitor) (rt : Runtime) (cfg : Config)
    (o : Observation) (prevState : State) (msg : string)
    (l : StatusListener) :
  states h !! config.Name cfg = Some prevState →
  isFailure prevState = true →
  err o = Some msg →
  Monitor_StatusListener h = Some l →
  ∃ h' rt' entry,
    checkFunc h cfg o rt = Done h' rt' ∧
    states h' !! config.Name cfg = Some entry ∧
    TimeOfFirstFailure entry = TimeOfFirstFailure prevState ∧
    ContiguousFailures entry = add64 (ContiguousFailures prevState) 1 ∧
    (0 ≤ ContiguousFailures prevState < max_int64 →
       ContiguousFailures entry = ContiguousFailures prevState + 1) ∧
    heap rt' !! length (heap rt) = Some entry ∧
    notifications rt rt' =
      [go_StillFailing l (length (heap rt)) (ContiguousFailures prevState)].
Proof.
  intros Hprev Hfail Herr Hl.
  destruct (checkFunc_stored h cfg o rt) as (h' & rt' & Hrun & Hst & Hp & Hn).
  rewrite Hprev in Hst, Hp, Hn. simpl in Hst, Hp, Hn.
  rewrite detected_candidate, Herr, Hfail in Hst, Hp.
  unfold announced in Hn.
  rewrite isFailure_candidate, Herr, Hl, Hfail in Hn. simpl in Hn.
  eexists h', rt', _. split; [exact Hrun|]. split; [exact Hst|].
  simpl. repeat split; try done. apply add64_1.
Qed.

(** C3, as the code has it: when the new observation is ok and the
    stored state of the check is failing, exactly one listener call is
    started, [CheckRecovered], on the new entry, with the previous
    count and with the seconds from the previous time of first failure
    to the reading of [time.Now()] that the detector takes itself
    ([detectTime], not the entry's [CheckTime]); the stored state that
    replaces the previous one counts no failure and has the zero time
    of first failure. *)
Theorem C3_recovery (h : Monitor) (rt : Runtime) (cfg : Config)
    (o : Observation) (prevState : State) (l : StatusListener) :
  states h !! config.Name cfg = Some prevState →
  isFailure prevState = true →
  err o = None →
  Monitor_StatusListener h = Some l →
  ∃ h' rt' entry,
    checkFunc h cfg o rt = Done h' rt' ∧
    states h' !! config.Name cfg = Some entry ∧
    ContiguousFailures entry = 0 ∧
    TimeOfFirstFailure entry = zero_Time ∧
    heap rt' !! length (heap rt) = Some entry ∧
    notifications rt rt' =
      [go_CheckRecovered l (length (heap rt))
         (ContiguousFailures prevState)
         (Seconds (Sub (detectTime o) (TimeOfFirstFailure prevState)))].
Proof.
  intros Hprev Hfail Herr Hl.
  destruct (checkFunc_stored h cfg o rt) as (h' & rt' & Hrun & Hst & Hp & Hn).
  rewrite Hprev in Hst, Hp, Hn. simpl in Hst, Hp, Hn.
  rewrite detected_candidate, Herr in Hst, Hp.
  unfold announced in Hn.
  rewrite isFailure_candidate, Herr, Hl, Hfail in Hn. simpl in Hn.
  eexists h', rt', _. split; [exact Hrun|]. split; [exact Hst|]. done.
Qed.

(** C4, as the code has it: when the new observation is failed and the
    check has no stored state, or one that is not failing, in a monitor
    that a history from [New()] has produced, the stored state gets as
    time of first failure the reading of [time.Now()] that the detector
    takes itself ([detectTime], not the entry's [CheckTime]) and counts
    one failure, and exactly one listener call is started,
    [CheckFailed], on the new entry. *)
Theorem C4_new_failure (h : Monitor) (rt : Runtime) (cfg : Config)
    (o : Observation) (msg : string) (l : StatusListener) :
  reachable h rt →
  (∀ prevState,
     states h !! config.Name cfg = Some prevState →
     isFailure prevState = false) →
  err o = Some msg →
  Monitor_StatusListener h = Some l →
  ∃ h' rt' entry,
    checkFunc h cfg o rt = Done h' rt' ∧
    states h' !! config.Name cfg = Some entry ∧
    TimeOfFirstFailure entry = detectTime o ∧
    ContiguousFailures entry = 1 ∧
    heap rt' !! length (heap rt) = Some entry ∧
    notifications rt rt' = [go_CheckFailed l (length (heap rt))].
Proof.
  intros Hreach Hprev Herr Hl.
  destruct (checkFunc_stored h cfg o rt) as (h' & rt' & Hrun & Hst & Hp & Hn).
  set (prevState := default zero_State (states h !! config.Name cfg)) in *.
  assert (isFailure prevState = false ∧ ContiguousFailures prevState = 0)
    as [Hnf Hzero].
  { subst prevState.
    destruct (states h !! config.Name cfg) as [p|] eqn:Hp'; simpl; [|done].
    specialize (Hprev p eq_refl). split; [done|].
    destruct (reachable_states_ok h rt Hreach _ _ Hp') as [_ [[_ ?]|Hf]];
      [done|].
    unfold isFailure in Hprev. by apply bool_decide_eq_false_1 in Hprev. }
  rewrite detected_candidate, Herr, Hnf, Hzero in Hst, Hp.
  unfold announced in Hn.
  rewrite isFailure_candidate, Herr, Hl, Hnf in Hn. simpl in Hn.
  eexists h', rt', _. split; [exact Hrun|]. split; [exact Hst|]. done.
Qed.

(* ================================================================== *)
(** ** The registry: AddCheck *)

Lemma AddCheck_cfg_None (existing : Config) (cfg : list Config) :
  AddCheck_cfg existing cfg = None ↔
  ∀ c, c ∈ cfg → config.Name c ≠ config.Name existing.
Proof.
  induction cfg as [|c cfg IH]; simpl.
  - split; [|done]. intros _ c Hc. by apply elem_of_nil in Hc.
  - case_decide as Hname.
    + split; [done|]. intros Hall. destruct (Hall c); [left | done].
    + rewrite IH. split.
      * intros Hall c' [->|Hc']%elem_of_cons; auto.
      * intros Hall c' Hc'. apply Hall. by right.
Qed.

Lemma AddCheck_cfg_Some (existing : Config) (cfg : list Config)
    (e : string) :
  AddCheck_cfg existing cfg = Some e →
  ∃ c, c ∈ cfg ∧ config.Name c = config.Name existing
       ∧ e = already_exists c.
Proof.
  induction cfg as [|c cfg IH]; simpl; [done|].
  case_decide as Hname.
  - intros [= <-]. exists c. split; [left | done].
  - intros (c' & Hc' & ?)%IH. exists c'. split; [by right | done].
Qed.

Lemma AddCheck_configs_None (registered cfg : list Config) :
  AddCheck_configs registered cfg = None ↔
  ∀ c existing, c ∈ cfg → existing ∈ registered →
    config.Name c ≠ config.Name existing.
Proof.
  induction registered as [|existing registered IH]; simpl.
  - split; [|done]. intros _ c existing _ He. by apply elem_of_nil in He.
  - destruct (AddCheck_cfg existing cfg) as [e|] eqn:Hcfg.
    + split; [done|]. intros Hall.
      apply AddCheck_cfg_Some in Hcfg as (c & Hc & Hname & _).
      destruct (Hall c existing Hc); [left | done].
    + rewrite IH. rewrite AddCheck_cfg_None in Hcfg. split.
      * intros Hall c existing' Hc [->|He]%elem_of_cons; auto.
      * intros Hall c existing' Hc He. apply Hall; [done | by right].
Qed.

Lemma AddCheck_configs_Some (registered cfg : list Config) (e : string) :
  AddCheck_configs registered cfg = Some e →
  ∃ c existing, c ∈ cfg ∧ existing ∈ registered
    ∧ config.Name c = config.Name existing ∧ e = already_exists c.
Proof.
  induction registered as [|existing registered IH]; simpl; [done|].
  destruct (AddCheck_cfg existing cfg) as [e'|] eqn:Hcfg.
  - intros [= <-]. apply AddCheck_cfg_Some in Hcfg as (c & Hc & Hname & ->).
    exists c, existing. split; [done|]. split; [left | done].
  - intros (c & existing' & Hc & He & ?)%IH.
    exists c, existing'. split; [done|]. split; [by right | done].
Qed.

(** C8: registering a descriptor whose name is that of a registered
    one fails with the duplicate-name error, and leaves the monitor,
    its registry included, as it was. *)
Theorem C8_AddCheck_duplicate_name (h : Monitor) (c existing : Config) :
  existing ∈ configs h →
  config.Name c = config.Name existing →
  AddCheck h [c] = (h, Some (already_exists c)).
Proof.
  intros He Hname. unfold AddCheck.
  destruct (AddCheck_configs (configs h) [c]) as [e|] eqn:Hadd.
  - apply AddCheck_configs_Some in Hadd as (c' & existing' & Hc' & _ & _ & ->).
    by apply list_elem_of_singleton in Hc' as ->.
  - rewrite AddCheck_configs_None in Hadd.
    destruct (Hadd c existing); [left | done..].
Qed.

(** C10: a call of [AddCheck] with several descriptors either appends
    them all or none.  If one of them has the name of a registered
    descriptor, the call returns the duplicate-name error of such a
    member and the monitor is as before.  If none has, the call
    succeeds and appends the whole batch, in order: the members are
    compared with the registered descriptors only, so two members of
    one batch may share a name. *)
Theorem C10_AddCheck_batch (h : Monitor) (cfg : list Config) :
  ((∃ c existing, c ∈ cfg ∧ existing ∈ configs h
      ∧ config.Name c = config.Name existing) →
   ∃ c existing, c ∈ cfg ∧ existing ∈ configs h
     ∧ config.Name c = config.Name existing
     ∧ AddCheck h cfg = (h, Some (already_exists c)))
  ∧
  ((∀ c existing, c ∈ cfg → existing ∈ configs h →
      config.Name c ≠ config.Name existing) →
   AddCheck h cfg = (set_configs (configs h ++ cfg) h, None))
  ∧
  (∀ c, (∀ existing, existing ∈ configs h →
           config.Name c ≠ config.Name existing) →
        AddCheck h [c; c] = (set_configs (configs h ++ [c; c]) h, None)).
Proof.
  assert (Hfree : ∀ cfg',
    (∀ c existing, c ∈ cfg' → existing ∈ configs h →
       config.Name c ≠ config.Name existing) →
    AddCheck h cfg' = (set_configs (configs h ++ cfg') h, None)).
  { intros cfg' Hall. apply AddCheck_configs_None in Hall.
    unfold AddCheck. by rewrite Hall. }
  split; [|split].
  - intros (c & existing & Hc & He & Hname). unfold AddCheck.
    destruct (AddCheck_configs (configs h) cfg) as [e|] eqn:Hadd.
    + apply AddCheck_configs_Some in Hadd
        as (c' & existing' & Hc' & He' & Hname' & ->).
      by exists c', existing'.
    + rewrite AddCheck_configs_None in Hadd. by destruct (Hadd c existing).
  - apply Hfree.
  - intros c Hc. apply Hfree. intros c' existing Hc' He.
    apply elem_of_cons in Hc' as [->|Hc']; [by apply Hc|].
    apply list_elem_of_singleton in Hc' as ->. by apply Hc.
Qed.

(* ================================================================== *)
(** ** Stopping: StopCheck, Stop *)

(** C6: in every monitor that a history from [New()] has produced,
    [Stop()] returns, and returns no error; after it the store of
    states is empty, so that [State()] returns the empty mapping, the
    map of runners is empty and the monitor is marked not started.
    Every channel that stood for a running lane has been closed. *)
Theorem C6_Stop_resets (h : Monitor) (rt : Runtime) :
  reachable h rt →
  ∃ h' rt',
    Stop h rt = Done (h', None) rt' ∧
    states h' = ∅ ∧
    Monitor_State h' = (∅, None) ∧
    runners h' = ∅ ∧
    started h' = false ∧
    configs h' = configs h ∧
    ∀ name stop, runners h !! name = Some stop → chans rt' !! stop = Some true.
Proof.
  intros Hreach%reachable_lanes_ok.
  destruct (Stop_Done h rt Hreach) as (cs & Hrun & Hclosed).
  eexists _, _. split; [exact Hrun|]. simpl.
  unfold Monitor_State. rewrite safeGetStates_eq. done.
Qed.

(** C7: in every monitor that a history from [New()] has produced, if
    a lane runs under [name], [StopCheck(name)] succeeds, closes that
    lane's channel, and deletes the entry of [name], and only that
    one, from the store of states and from the runners; if no lane
    runs under [name] it returns the not-found error and monitor and
    runtime are as before. *)
Theorem C7_StopCheck_frame (h : Monitor) (rt : Runtime) (name : string) :
  reachable h rt →
  (∀ stop, runners h !! name = Some stop →
     ∃ h' rt',
       StopCheck h name rt = Done (h', None) rt' ∧
       states h' = delete name (states h) ∧
       runners h' = delete name (runners h) ∧
       states h' !! name = None ∧
       runners h' !! name = None ∧
       (∀ other, other ≠ name →
          states h' !! other = states h !! other ∧
          runners h' !! other = runners h !! other) ∧
       configs h' = configs h ∧
       started h' = started h ∧
       Monitor_StatusListener h' = Monitor_StatusListener h ∧
       chans rt' = <[stop := true]> (chans rt) ∧
       heap rt' = heap rt ∧ spawned rt' = spawned rt)
  ∧
  (runners h !! name = None →
     StopCheck h name rt =
       Done (h, Some ("failed to find check with name " +:+ name)) rt).
Proof.
  intros [Hopen _]%reachable_lanes_ok. split.
  - intros stop Hstop. eexists _, _.
    split; [apply StopCheck_running; [done | by eapply Hopen]|]. simpl.
    rewrite !lookup_delete_eq. repeat split; try done.
    + by apply lookup_delete_ne.
    + by apply lookup_delete_ne.
  - apply StopCheck_not_running.
Qed.

(* ================================================================== *)
(** ** The invariant of the stored states *)

(** C1: after every history from [New()] (method calls and probe
    invocations of any checks, in any order) with fewer than [2^63]
    probe invocations, which is as long as the [int64] count cannot
    have wrapped, the history has run to its end and every stored
    state counts [0] contiguous failures if and only if its status is
    ["ok"], and more than [0] if and only if its status is
    ["failed"]. *)
Theorem C1_failures_zero_iff_ok (es : list event) :
  probes es ≤ max_int64 →
  ∃ h rt,
    run New es Runtime0 = Done h rt ∧
    ∀ name s, states h !! name = Some s →
      (ContiguousFailures s = 0 ↔ Status s = "ok") ∧
      (0 < ContiguousFailures s ↔ Status s = "failed").
Proof.
  intros Hmax.
  destruct (inv_run es 0 New Runtime0 inv_New)
    as (h & rt & Hrun & _ & _ & Hst & Hle).
  exists h, rt. split; [exact Hrun|].
  intros name s Hs. rewrite Z.add_0_l in Hle.
  destruct (Hst name s Hs) as [_ [[Hok Hzero]|Hfailed]].
  - rewrite Hok, Hzero. split; split; (done || lia).
  - pose proof (Hle Hmax name s Hs Hfailed). rewrite Hfailed.
    split; split; (done || lia).
Qed.

(* ================================================================== *)
(** ** Probe errors and the errors of the scheduler *)

Lemma control_inv (h1 h2 : Monitor) (rt1 rt2 : Runtime) :
  control h1 rt1 = control h2 rt2 →
  configs h1 = configs h2 ∧ runners h1 = runners h2
  ∧ started h1 = started h2 ∧ chans rt1 = chans rt2.
Proof. unfold control. intros [= ? ? ? ?]. done. Qed.

Ltac control_eq :=
  unfold outcome, outcome_run, control; cbn -[take drop]; congruence.

Lemma StopCheck_outcome (h1 h2 : Monitor) (rt1 rt2 : Runtime)
    (name : string) :
  control h1 rt1 = control h2 rt2 →
  outcome (StopCheck h1 name rt1) = outcome (StopCheck h2 name rt2).
Proof.
  intros (Hc & Hr & Hs & Hch)%control_inv.
  unfold StopCheck, close, mbind, mret, Go_bind, Go_ret.
  rewrite Hr.
  destruct (runners h2 !! name) as [stop|]; [|control_eq].
  rewrite Hch.
  destruct (chans rt2 !! stop) as [[]|]; control_eq.
Qed.

Lemma RemoveCheck_range_outcome (h1 h2 : Monitor) (rt1 rt2 : Runtime)
    (cfg : Config) (rest : list Config) (idx : nat) :
  control h1 rt1 = control h2 rt2 →
  outcome (RemoveCheck_range h1 cfg idx rest rt1) =
  outcome (RemoveCheck_range h2 cfg idx rest rt2).
Proof.
  intros Hctl. pose proof (control_inv _ _ _ _ Hctl) as (Hc & Hr & Hs & Hch).
  revert idx. induction rest as [|existing rest IH]; intros idx; simpl.
  - control_eq.
  - case_decide; [|apply IH]. rewrite Hs. destruct (started h2) eqn:Hs2.
    + pose proof (StopCheck_outcome h1 h2 rt1 rt2 (config.Name cfg) Hctl)
        as Hstop.
      unfold mbind, Go_bind.
      destruct (StopCheck h1 _ rt1) as [[h1' e1] rt1'|],
        (StopCheck h2 _ rt2) as [[h2' e2] rt2'|]; simpl in Hstop;
        try done.
      injection Hstop as -> ? ? ? ?.
      destruct e2; control_eq.
    + control_eq.
Qed.

Lemma Start_range_outcome (l : list Config) (h1 h2 : Monitor)
    (rt1 rt2 : Runtime) :
  control h1 rt1 = control h2 rt2 →
  outcome_run (for_range startRunnerForConfig h1 l rt1) =
  outcome_run (for_range startRunnerForConfig h2 l rt2).
Proof.
  revert h1 h2 rt1 rt2. induction l as [|c l IH]; intros h1 h2 rt1 rt2 Hctl.
  - simpl. unfold mret, Go_ret, outcome_run. by rewrite Hctl.
  - simpl. unfold mbind, Go_bind. rewrite !startRunnerForConfig_Done.
    apply IH. apply control_inv in Hctl as (Hc & Hr & Hs & Hch).
    control_eq.
Qed.

Lemma close_unfold (c : chan) (rt : Runtime) :
  close c rt =
    match chans rt !! c with
    | Some false =>
        Done tt {| chans := <[c := true]> (chans rt); heap := heap rt;
                   spawned := spawned rt |}
    | Some true => Panic "close of closed channel"
    | None => Panic "close of nil channel"
    end.
Proof. reflexivity. Qed.

Lemma close_range_chans (l : list (string * chan)) (rt1 rt2 : Runtime) :
  chans rt1 = chans rt2 →
  match
    for_range (λ (_ : unit) (kv : string * chan), close kv.2) tt l rt1,
    for_range (λ (_ : unit) (kv : string * chan), close kv.2) tt l rt2
  with
  | Done _ rt1', Done _ rt2' => chans rt1' = chans rt2'
  | Panic _, Panic _ => True
  | _, _ => False
  end.
Proof.
  revert rt1 rt2. induction l as [|[k c] l IH]; intros rt1 rt2 Hch.
  - done.
  - simpl. unfold mbind, Go_bind. rewrite !close_unfold, Hch.
    destruct (chans rt2 !! c) as [[]|]; [exact I| |exact I].
    apply IH. simpl. congruence.
Qed.

Lemma Stop_outcome (h1 h2 : Monitor) (rt1 rt2 : Runtime) :
  control h1 rt1 = control h2 rt2 →
  outcome (Stop h1 rt1) = outcome (Stop h2 rt2).
Proof.
  intros (Hc & Hr & Hs & Hch)%control_inv.
  unfold Stop, mbind, Go_bind. rewrite Hr.
  pose proof (close_range_chans (map_to_list (runners h2)) rt1 rt2 Hch)
    as Hclose.
  destruct (for_range _ tt _ rt1), (for_range _ tt _ rt2); try done.
  control_eq.
Qed.

Lemma outcome_bind_ret (m : Go Monitor) (rt : Runtime) :
  outcome ((h ← m; mret (h, None)) rt) =
  (λ c, (None, c)) <$> outcome_run (m rt).
Proof. unfold mbind, Go_bind. by destruct (m rt). Qed.

Lemma invoke_outcome (h1 h2 : Monitor) (rt1 rt2 : Runtime) (m : method) :
  control h1 rt1 = control h2 rt2 →
  outcome (invoke h1 m rt1) = outcome (invoke h2 m rt2).
Proof.
  intros Hctl. pose proof (control_inv _ _ _ _ Hctl) as (Hc & Hr & Hs & Hch).
  destruct m as [cfg|cfg| |name|name| | |l]; simpl.
  - unfold AddCheck. rewrite Hc.
    destruct (AddCheck_configs (configs h2) cfg); control_eq.
  - unfold RemoveCheck. rewrite Hc. by apply RemoveCheck_range_outcome.
  - unfold Start. rewrite Hs. destruct (started h2) eqn:Hs2; [control_eq|].
    cbv zeta. rewrite !outcome_bind_ret. f_equal.
    change (configs (set_started true h1)) with (configs h1).
    change (configs (set_started true h2)) with (configs h2).
    rewrite Hc. apply Start_range_outcome. control_eq.
  - unfold StartCheck. rewrite Hc, Hr.
    destruct (StartCheck_found name None (configs h2)); [|control_eq].
    destruct (runners h2 !! name); [control_eq|].
    unfold mbind, Go_bind. rewrite !startRunnerForConfig_Done. control_eq.
  - by apply StopCheck_outcome.
  - by apply Stop_outcome.
  - control_eq.
  - control_eq.
Qed.

Lemma checkFunc_control (h : Monitor) (cfg : Config) (o : Observation)
    (rt : Runtime) :
  outcome_run (checkFunc h cfg o rt) = Some (control h rt).
Proof. by rewrite checkFunc_Done. Qed.

(** A history leaves the control that its method calls alone leave. *)
Lemma run_outcome (es : list event) (h1 h2 : Monitor) (rt1 rt2 : Runtime) :
  control h1 rt1 = control h2 rt2 →
  outcome_run (run h1 es rt1) =
  outcome_run (run h2 (Call <$> calls_of es) rt2).
Proof.
  revert h1 h2 rt1 rt2.
  induction es as [|[m|cfg o] es IH]; intros h1 h2 rt1 rt2 Hctl.
  - simpl. unfold mret, Go_ret, outcome_run. by rewrite Hctl.
  - pose proof (invoke_outcome h1 h2 rt1 rt2 m Hctl) as Hm.
    unfold run. simpl. unfold mbind, Go_bind.
    destruct (invoke h1 m rt1) as [[h1' e1] rt1'|],
      (invoke h2 m rt2) as [[h2' e2] rt2'|]; simpl in Hm; try done.
    apply IH. injection Hm as _ ? ? ? ?. unfold control. congruence.
  - pose proof (checkFunc_control h1 cfg o rt1) as Hp.
    unfold run. simpl. unfold mbind, Go_bind.
    destruct (checkFunc h1 cfg o rt1) as [h1' rt1'|]; [|done].
    apply IH. rewrite <- Hctl. injection Hp as ? ? ? ?.
    unfold control. congruence.
Qed.

(** C9: a probe invocation always completes; the entry it stores is
    ["failed"] with the probe's error message as error text when the
    probe returned an error, and ["ok"] with empty error text when it
    did not; registry, runners, started flag and channels are as
    before.  And no method ever returns another error for it: the
    error that a method call returns after a history is the same for
    all histories with the same method calls, whichever probes ran
    between them and whatever those returned. *)
Theorem C9_probe_error_folded (h : Monitor) (rt : Runtime) (cfg : Config)
    (o : Observation) :
  (∃ h' rt' entry,
     checkFunc h cfg o rt = Done h' rt' ∧
     states h' !! config.Name cfg = Some entry ∧
     heap rt' !! length (heap rt) = Some entry ∧
     match err o with
     | Some msg => Status entry = "failed" ∧ Err entry = msg
     | None => Status entry = "ok" ∧ Err entry = ""
     end ∧
     configs h' = configs h ∧ runners h' = runners h ∧
     started h' = started h ∧ chans rt' = chans rt)
  ∧
  (∀ es1 es2 m,
     calls_of es1 = calls_of es2 →
     returned ((h1 ← run h es1; invoke h1 m) rt) =
     returned ((h2 ← run h es2; invoke h2 m) rt)).
Proof.
  split.
  - destruct (checkFunc_stored h cfg o rt) as (h' & rt' & Hrun & Hst & Hp & _).
    pose proof (checkFunc_control h cfg o rt) as Hctl.
    rewrite Hrun in Hctl. injection Hctl as ? ? ? ?.
    eexists h', rt', _. split; [exact Hrun|]. split; [exact Hst|].
    split; [exact Hp|]. rewrite detected_candidate.
    by destruct (err o).
  - intros es1 es2 m Hcalls. unfold mbind, Go_bind.
    pose proof (run_outcome es1 h h rt rt eq_refl) as H1.
    pose proof (run_outcome es2 h h rt rt eq_refl) as H2.
    rewrite Hcalls, <- H2 in H1.
    destruct (run h es1 rt) as [h1 rt1|], (run h es2 rt) as [h2 rt2|];
      simpl in H1; try done.
    injection H1 as ? ? ? ?.
    assert (control h1 rt1 = control h2 rt2) as Hctl
      by (unfold control; congruence).
    pose proof (invoke_outcome h1 h2 rt1 rt2 m Hctl) as Hm.
    destruct (invoke h1 m rt1) as [[? ?] ?|], (invoke h2 m rt2) as [[? ?] ?|];
      simpl in Hm; try done.
    simpl. by injection Hm as -> _ _ _ _.
Qed.

(* ================================================================== *)
(** ** Scenarios *)

Lemma reachable_after (es : list event) :
  reachable (after es).1 (after es).2.
Proof.
  destruct (inv_run es 0 New Runtime0 inv_New) as (h & rt & Hrun & _).
  exists es. unfold after. by rewrite Hrun.
Qed.

Example failing_history_a :
  states (after failing_history).1 !! "a" = Some failing_a.
Proof. by vm_compute. Qed.

Example passing_history_a :
  states (after passing_history).1 !! "a" =
    Some {| Name := "a"; Status := "ok"; Err := "";
            Details := any_string "Working just fine";
            CheckTime := 100000000; ContiguousFailures := 0;
            TimeOfFirstFailure := zero_Time |}.
Proof. by vm_compute. Qed.

(** The test [Test_StatusListenerCalled]'s sequence, one failure
    shorter: the listener gets one [CheckFailed], one [StillFailing]
    with the count before the increment, one [CheckRecovered]. *)
Example listener_calls :
  notifications Runtime0
    (after (failing_history ++ [Probe check_a (ok_at 400000000)])).2 =
  [go_CheckFailed 7%nat 2%nat;
   go_StillFailing 7%nat 3%nat 1;
   go_CheckRecovered 7%nat 4%nat 2 (Seconds 200000000)].
Proof. by vm_compute. Qed.

Example Seconds_1500ms : Seconds 1500000000 = 1.5%float.
Proof. by vm_compute. Qed.

(* ================================================================== *)
(** ** The clock readings of the detector *)

(** C3 as stated does not hold: the failure duration that
    [CheckRecovered] reports is not measured up to the observation's
    timestamp: check [a], failing since
    0.200001s with two failures, passes at [CheckTime] 0.4s; the one
    call reports the seconds up to the detector's own reading,
    0.400001s, and these differ from the seconds up to the
    [CheckTime]. *)
Lemma C3_duration_not_to_CheckTime :
  states (after failing_history).1 !! "a" = Some failing_a ∧
  isFailure failing_a = true ∧
  err (ok_at 400000000) = None ∧
  Monitor_StatusListener (after failing_history).1 = Some 7%nat ∧
  ∃ h' rt',
    checkFunc (after failing_history).1 check_a (ok_at 400000000)
      (after failing_history).2 = Done h' rt' ∧
    notifications (after failing_history).2 rt' =
      [go_CheckRecovered 7%nat 4%nat 2
         (Seconds (Sub 400001000 (TimeOfFirstFailure failing_a)))] ∧
    Seconds (Sub 400001000 (TimeOfFirstFailure failing_a)) ≠
    Seconds (Sub (checkTime (ok_at 400000000))
               (TimeOfFirstFailure failing_a)).
Proof.
  split; [by vm_compute|]. split; [done|]. split; [done|].
  split; [by vm_compute|].
  destruct (checkFunc_stored (after failing_history).1 check_a
              (ok_at 400000000) (after failing_history).2)
    as (h' & rt' & Hrun & _ & _ & Hn).
  exists h', rt'. split; [exact Hrun|]. split.
  - rewrite Hn. by vm_compute.
  - intros Heq. apply (f_equal Prim2SF) in Heq. vm_compute in Heq.
    discriminate Heq.
Qed.

(** C4 as stated does not hold: the time of first failure is not the
    observation's timestamp:
    check [a], passing so far, fails at [CheckTime] 0.2s; the stored
    entry has that [CheckTime], and as time of first failure the
    detector's own reading, 0.200001s. *)
Lemma C4_first_failure_not_at_CheckTime :
  (∃ prevState,
     states (after passing_history).1 !! "a" = Some prevState ∧
     isFailure prevState = false) ∧
  err (failed_at 200000000) = Some "failure" ∧
  ∃ h' rt' entry,
    checkFunc (after passing_history).1 check_a (failed_at 200000000)
      (after passing_history).2 = Done h' rt' ∧
    states h' !! "a" = Some entry ∧
    CheckTime entry = checkTime (failed_at 200000000) ∧
    TimeOfFirstFailure entry = 200001000 ∧
    TimeOfFirstFailure entry ≠ checkTime (failed_at 200000000).
Proof.
  split; [eexists; split; [apply passing_history_a | done]|].
  split; [done|].
  destruct (checkFunc_stored (after passing_history).1 check_a
              (failed_at 200000000) (after passing_history).2)
    as (h' & rt' & Hrun & Hst & _).
  eexists h', rt', _. split; [exact Hrun|]. split; [exact Hst|].
  by vm_compute.
Qed.

(* ================================================================== *)
(** ** The registry: RemoveCheck *)

(** C5, where the code departs from it.  [RemoveCheck] takes
    [h.started] for "the check is running".  In a started monitor it
    cannot remove a registered check whose lane has been stopped: it
    returns the error of [StopCheck] and the descriptor stays.  In a
    monitor that is not started it removes the descriptor of a check
    started by [StartCheck] and leaves the lane running: the runner is
    still there and its channel is open. *)
Lemma C5_RemoveCheck_takes_started_for_running :
  (check_a ∈ configs (after [Call (m_AddCheck [check_a]); Call m_Start;
                             Call (m_StopCheck "a")]).1 ∧
   RemoveCheck
     (after [Call (m_AddCheck [check_a]); Call m_Start;
             Call (m_StopCheck "a")]).1 check_a
     (after [Call (m_AddCheck [check_a]); Call m_Start;
             Call (m_StopCheck "a")]).2 =
   Done ((after [Call (m_AddCheck [check_a]); Call m_Start;
                 Call (m_StopCheck "a")]).1,
         Some "failed to find check with name a")
        (after [Call (m_AddCheck [check_a]); Call m_Start;
                Call (m_StopCheck "a")]).2)
  ∧
  (runners (after [Call (m_AddCheck [check_a]);
                   Call (m_StartCheck "a")]).1 !! "a" = Some 0%nat ∧
   ∃ h' rt',
     RemoveCheck
       (after [Call (m_AddCheck [check_a]); Call (m_StartCheck "a")]).1
       check_a
       (after [Call (m_AddCheck [check_a]); Call (m_StartCheck "a")]).2 =
     Done (h', None) rt' ∧
     configs h' = [] ∧
     runners h' !! "a" = Some 0%nat ∧
     chans rt' !! 0%nat = Some false).
Proof.
  split; [split|split].
  - vm_compute. left.
  - by vm_compute.
  - by vm_compute.
  - eexists _, _. split; [by vm_compute|]. by vm_compute.
Qed.

(** Where [RemoveCheck] does what C5 says: no descriptor of the name,
    and a monitor that is not started. *)
Lemma RemoveCheck_range_not_found (h : Monitor) (cfg : Config)
    (rest : list Config) (idx : nat) (rt : Runtime) :
  (∀ existing, existing ∈ rest → config.Name cfg ≠ config.Name existing) →
  RemoveCheck_range h cfg idx rest rt =
    Done (h, Some ("no check found with name " +:+ config.Name cfg)) rt.
Proof.
  revert idx. induction rest as [|existing rest IH]; intros idx Hall; simpl.
  - done.
  - case_decide as Hname.
    + destruct (Hall existing); [left | done].
    + apply IH. intros existing' He. apply Hall. by right.
Qed.

Lemma RemoveCheck_not_found (h : Monitor) (cfg : Config) (rt : Runtime) :
  (∀ existing, existing ∈ configs h →
     config.Name cfg ≠ config.Name existing) →
  RemoveCheck h cfg rt =
    Done (h, Some ("no check found with name " +:+ config.Name cfg)) rt.
Proof. apply RemoveCheck_range_not_found. Qed.

(* ================================================================== *)
(** ** The theorems at the scenarios *)

(** C1 at the history in which [a] passes, fails twice and recovers. *)
Lemma C1_at_recovered_history :
  probes (failing_history ++ [Probe check_a (ok_at 400000000)])
    ≤ max_int64 ∧
  ∃ h rt,
    run New (failing_history ++ [Probe check_a (ok_at 400000000)])
      Runtime0 = Done h rt ∧
    ∀ name s, states h !! name = Some s →
      (ContiguousFailures s = 0 ↔ Status s = "ok") ∧
      (0 < ContiguousFailures s ↔ Status s = "failed").
Proof.
  assert (H : probes (failing_history ++ [Probe check_a (ok_at 400000000)])
                ≤ max_int64) by (by vm_compute).
  exact (conj H (C1_failures_zero_iff_ok _ H)).
Defined.

(** C2 at the third failure in a row of [a]. *)
Lemma C2_at_third_failure :
  states (after failing_history).1 !! config.Name check_a = Some failing_a ∧
  isFailure failing_a = true ∧
  err (failed_at 400000000) = Some "failure" ∧
  Monitor_StatusListener (after failing_history).1 = Some 7%nat ∧
  ∃ h' rt' entry,
    checkFunc (after failing_history).1 check_a (failed_at 400000000)
      (after failing_history).2 = Done h' rt' ∧
    states h' !! config.Name check_a = Some entry ∧
    TimeOfFirstFailure entry = TimeOfFirstFailure failing_a ∧
    ContiguousFailures entry = add64 (ContiguousFailures failing_a) 1 ∧
    (0 ≤ ContiguousFailures failing_a < max_int64 →
       ContiguousFailures entry = ContiguousFailures failing_a + 1) ∧
    heap rt' !! length (heap (after failing_history).2) = Some entry ∧
    notifications (after failing_history).2 rt' =
      [go_StillFailing 7%nat (length (heap (after failing_history).2))
         (ContiguousFailures failing_a)].
Proof.
  assert (H1 : states (after failing_history).1 !! config.Name check_a
               = Some failing_a) by (by vm_compute).
  assert (H2 : isFailure failing_a = true) by done.
  assert (H3 : err (failed_at 400000000) = Some "failure") by done.
  assert (H4 : Monitor_StatusListener (after failing_history).1
               = Some 7%nat) by (by vm_compute).
  exact (conj H1 (conj H2 (conj H3 (conj H4
    (C2_still_failing _ (after failing_history).2 _ _ _ _ _
       H1 H2 H3 H4))))).
Defined.

(** C3 at the recovery of [a] after two failures. *)
Lemma C3_at_recovery :
  states (after failing_history).1 !! config.Name check_a = Some failing_a ∧
  isFailure failing_a = true ∧
  err (ok_at 400000000) = None ∧
  Monitor_StatusListener (after failing_history).1 = Some 7%nat ∧
  ∃ h' rt' entry,
    checkFunc (after failing_history).1 check_a (ok_at 400000000)
      (after failing_history).2 = Done h' rt' ∧
    states h' !! config.Name check_a = Some entry ∧
    ContiguousFailures entry = 0 ∧
    TimeOfFirstFailure entry = zero_Time ∧
    heap rt' !! length (heap (after failing_history).2) = Some entry ∧
    notifications (after failing_history).2 rt' =
      [go_CheckRecovered 7%nat (length (heap (after failing_history).2))
         (ContiguousFailures failing_a)
         (Seconds (Sub (detectTime (ok_at 400000000))
                     (TimeOfFirstFailure failing_a)))].
Proof.
  assert (H1 : states (after failing_history).1 !! config.Name check_a
               = Some failing_a) by (by vm_compute).
  assert (H2 : isFailure failing_a = true) by done.
  assert (H3 : err (ok_at 400000000) = None) by done.
  assert (H4 : Monitor_StatusListener (after failing_history).1
               = Some 7%nat) by (by vm_compute).
  exact (conj H1 (conj H2 (conj H3 (conj H4
    (C3_recovery _ (after failing_history).2 _ _ _ _ H1 H2 H3 H4))))).
Defined.

(** C4 at the first failure of [a]. *)
Lemma C4_at_first_failure :
  reachable (after passing_history).1 (after passing_history).2 ∧
  (∀ prevState,
     states (after passing_history).1 !! config.Name check_a
       = Some prevState →
     isFailure prevState = false) ∧
  err (failed_at 200000000) = Some "failure" ∧
  Monitor_StatusListener (after passing_history).1 = Some 7%nat ∧
  ∃ h' rt' entry,
    checkFunc (after passing_history).1 check_a (failed_at 200000000)
      (after passing_history).2 = Done h' rt' ∧
    states h' !! config.Name check_a = Some entry ∧
    TimeOfFirstFailure entry = detectTime (failed_at 200000000) ∧
    ContiguousFailures entry = 1 ∧
    heap rt' !! length (heap (after passing_history).2) = Some entry ∧
    notifications (after passing_history).2 rt' =
      [go_CheckFailed 7%nat (length (heap (after passing_history).2))].
Proof.
  assert (H1 : reachable (after passing_history).1 (after passing_history).2)
    by apply reachable_after.
  assert (H2 : ∀ prevState,
     states (after passing_history).1 !! config.Name check_a
       = Some prevState →
     isFailure prevState = false).
  { intros prevState Hp.
    change (config.Name check_a) with "a" in Hp.
    rewrite passing_history_a in Hp. by injection Hp as <-. }
  assert (H3 : err (failed_at 200000000) = Some "failure") by done.
  assert (H4 : Monitor_StatusListener (after passing_history).1
               = Some 7%nat) by (by vm_compute).
  exact (conj H1 (conj H2 (conj H3 (conj H4
    (C4_new_failure _ _ check_a _ _ _ H1 H2 H3 H4))))).
Defined.

(** C6 at the monitor with both checks running and [a] failing. *)
Lemma C6_at_failing_history :
  reachable (after failing_history).1 (after failing_history).2 ∧
  ∃ h' rt',
    Stop (after failing_history).1 (after failing_history).2
      = Done (h', None) rt' ∧
    states h' = ∅ ∧
    Monitor_State h' = (∅, None) ∧
    runners h' = ∅ ∧
    started h' = false ∧
    configs h' = configs (after failing_history).1 ∧
    ∀ name stop,
      runners (after failing_history).1 !! name = Some stop →
      chans rt' !! stop = Some true.
Proof.
  assert (H1 : reachable (after failing_history).1 (after failing_history).2)
    by apply reachable_after.
  exact (conj H1 (C6_Stop_resets _ _ H1)).
Defined.

(** C7 at the same monitor, for the running check [b] and for a name
    under which nothing runs. *)
Lemma C7_at_failing_history :
  reachable (after failing_history).1 (after failing_history).2 ∧
  (∀ stop, runners (after failing_history).1 !! "b" = Some stop →
     ∃ h' rt',
       StopCheck (after failing_history).1 "b" (after failing_history).2
         = Done (h', None) rt' ∧
       states h' = delete "b" (states (after failing_history).1) ∧
       runners h' = delete "b" (runners (after failing_history).1) ∧
       states h' !! "b" = None ∧
       runners h' !! "b" = None ∧
       (∀ other, other ≠ "b" →
          states h' !! other = states (after failing_history).1 !! other ∧
          runners h' !! other
            = runners (after failing_history).1 !! other) ∧
       configs h' = configs (after failing_history).1 ∧
       started h' = started (after failing_history).1 ∧
       Monitor_StatusListener h'
         = Monitor_StatusListener (after failing_history).1 ∧
       chans rt' = <[stop := true]> (chans (after failing_history).2) ∧
       heap rt' = heap (after failing_history).2 ∧
       spawned rt' = spawned (after failing_history).2)
  ∧
  (runners (after failing_history).1 !! "b" = None →
     StopCheck (after failing_history).1 "b" (after failing_history).2 =
       Done ((after failing_history).1,
             Some ("failed to find check with name " +:+ "b"))
            (after failing_history).2).
Proof.
  assert (H1 : reachable (after failing_history).1 (after failing_history).2)
    by apply reachable_after.
  exact (conj H1 (C7_StopCheck_frame _ _ "b" H1)).
Defined.

Example b_is_running :
  runners (after failing_history).1 !! "b" = Some 1%nat.
Proof. by vm_compute. Qed.

(** C8 at the registry with [a] and [b]: registering [a] again. *)
Lemma C8_at_started_history :
  check_a ∈ configs (after started_history).1 ∧
  config.Name check_a = config.Name check_a ∧
  AddCheck (after started_history).1 [check_a] =
    ((after started_history).1, Some (already_exists check_a)).
Proof.
  assert (H1 : check_a ∈ configs (after started_history).1)
    by (vm_compute; left).
  exact (conj H1 (conj eq_refl
    (C8_AddCheck_duplicate_name _ check_a check_a H1 eq_refl))).
Defined.

Example already_exists_a :
  already_exists check_a = "config with name a already exists".
Proof. reflexivity. Qed.

(** Two members of one batch may share a name. *)
Example AddCheck_twice_in_one_batch :
  AddCheck New [check_a; check_a] =
    (set_configs [check_a; check_a] New, None).
Proof. reflexivity. Qed.

(* ================================================================== *)
(** ** RemoveCheck, case by case *)

(** The loop skips the descriptors of other names. *)
Lemma RemoveCheck_range_skip (h : Monitor) (cfg : Config)
    (pre rest : list Config) (idx : nat) (rt : Runtime) :
  (∀ existing, existing ∈ pre → config.Name cfg ≠ config.Name existing) →
  RemoveCheck_range h cfg idx (pre ++ rest) rt =
  RemoveCheck_range h cfg (idx + length pre) rest rt.
Proof.
  revert idx. induction pre as [|e pre IH]; intros idx Hpre; simpl.
  - by rewrite Nat.add_0_r.
  - case_decide as Hname.
    + destruct (Hpre e); [left | done].
    + rewrite IH; [f_equal; lia|].
      intros existing He. apply Hpre. by right.
Qed.

Lemma remove_at (pre post : list Config) (existing : Config) :
  take (length pre) (pre ++ existing :: post)
    ++ drop (S (length pre)) (pre ++ existing :: post) = pre ++ post.
Proof.
  rewrite take_app_length, drop_app_ge by lia.
  by replace (S (length pre) - length pre)%nat with 1%nat by lia.
Qed.

(** Not started: the first descriptor of the name is removed, and
    nothing else happens, whether a lane runs under the name or not. *)
Lemma RemoveCheck_not_started (h : Monitor) (cfg existing : Config)
    (pre post : list Config) (rt : Runtime) :
  configs h = pre ++ existing :: post →
  (∀ e, e ∈ pre → config.Name cfg ≠ config.Name e) →
  config.Name cfg = config.Name existing →
  started h = false →
  RemoveCheck h cfg rt = Done (set_configs (pre ++ post) h, None) rt.
Proof.
  intros Hcfg Hpre Hname Hs. unfold RemoveCheck.
  rewrite Hcfg at 1. rewrite RemoveCheck_range_skip by done. simpl.
  rewrite decide_True by done. rewrite Hs, Hcfg, remove_at. done.
Qed.

(** Started, and a lane runs under the name: the lane is stopped as by
    [StopCheck], then the first descriptor of the name is removed. *)
Lemma RemoveCheck_running (h : Monitor) (cfg existing : Config)
    (pre post : list Config) (stop : chan) (rt : Runtime) :
  configs h = pre ++ existing :: post →
  (∀ e, e ∈ pre → config.Name cfg ≠ config.Name e) →
  config.Name cfg = config.Name existing →
  started h = true →
  runners h !! config.Name cfg = Some stop →
  chans rt !! stop = Some false →
  RemoveCheck h cfg rt =
    Done (set_configs (pre ++ post)
            (set_states (delete (config.Name cfg) (states h))
               (set_runners (delete (config.Name cfg) (runners h)) h)),
          None)
         {| chans := <[stop := true]> (chans rt); heap := heap rt;
            spawned := spawned rt |}.
Proof.
  intros Hcfg Hpre Hname Hs Hrun Hopen. unfold RemoveCheck.
  rewrite Hcfg at 1. rewrite RemoveCheck_range_skip by done. simpl.
  rewrite decide_True by done. rewrite Hs.
  unfold mbind, Go_bind.
  rewrite (StopCheck_running h _ stop rt Hrun Hopen). simpl.
  by rewrite Hcfg, remove_at.
Qed.

(** Started, and no lane runs under the name: the error of [StopCheck]
    comes back and the descriptor stays registered. *)
Lemma RemoveCheck_started_not_running (h : Monitor) (cfg existing : Config)
    (rt : Runtime) :
  existing ∈ configs h →
  config.Name cfg = config.Name existing →
  started h = true →
  runners h !! config.Name cfg = None →
  RemoveCheck h cfg rt =
    Done (h, Some ("failed to find check with name " +:+ config.Name cfg))
         rt.
Proof.
  intros He Hname Hs Hrun. unfold RemoveCheck.
  generalize 0%nat. induction (configs h) as [|e l IH]; intros idx.
  - by apply elem_of_nil in He.
  - simpl. case_decide as Hn.
    + rewrite Hs. unfold mbind, Go_bind.
      by rewrite (StopCheck_not_running h _ rt Hrun).
    + apply IH. apply elem_of_cons in He as [->|He]; done.
Qed.

(** The count wraps at the largest [int64]. *)
Example add64_wraps : add64 max_int64 1 = min_int64.
Proof. reflexivity. Qed.

(* ================================================================== *)
(** ** Histories, step by step *)

Lemma run_app (es1 es2 : list event) (h : Monitor) (rt : Runtime) :
  run h (es1 ++ es2) rt = (h' ← run h es1; run h' es2) rt.
Proof.
  revert h rt. induction es1 as [|e es1 IH]; intros h rt; [done|].
  unfold run in *. simpl. unfold mbind, Go_bind in *.
  destruct (step h e rt) as [h1 rt1|]; [apply IH | done].
Qed.

Lemma run_snoc (es : list event) (e : event) (h h1 : Monitor)
    (rt rt1 : Runtime) :
  run h es rt = Done h1 rt1 →
  run h (es ++ [e]) rt = (h' ← step h1 e; mret h') rt1.
Proof.
  intros Hrun. rewrite run_app. unfold mbind, Go_bind. rewrite Hrun.
  unfold run. simpl. unfold mbind, Go_bind. done.
Qed.

Lemma reachable_step (h h' : Monitor) (rt rt' : Runtime) (e : event) :
  reachable h rt → step h e rt = Done h' rt' → reachable h' rt'.
Proof.
  intros [es Hrun] Hstep. exists (es ++ [e]).
  rewrite (run_snoc _ _ _ _ _ _ Hrun). unfold mbind, Go_bind.
  by rewrite Hstep.
Qed.

Lemma reachable_invoke (h h' : Monitor) (rt rt' : Runtime) (m : method)
    (e : error) :
  reachable h rt → invoke h m rt = Done (h', e) rt' → reachable h' rt'.
Proof.
  intros Hreach Hm. apply (reachable_step h h' rt rt' (Call m) Hreach).
  simpl. unfold mbind, Go_bind. by rewrite Hm.
Qed.

Lemma reachable_checkFunc (h h' : Monitor) (rt rt' : Runtime) (cfg : Config)
    (o : Observation) :
  reachable h rt → checkFunc h cfg o rt = Done h' rt' → reachable h' rt'.
Proof. intros Hreach Hp. by apply (reachable_step h h' rt rt' (Probe cfg o)). Qed.

Lemma reachable_New : reachable New Runtime0.
Proof. by exists []. Qed.

(* ================================================================== *)
(** ** No history panics *)

(** X1: every history of method calls and probe invocations from
    [New()] runs to its end: no channel is closed twice and no entry
    is read through a nil pointer.  In the monitor it leaves, every
    runner holds an open channel, and no two runners hold the same. *)
Theorem history_never_panics (es : list event) :
  ∃ h rt,
    run New es Runtime0 = Done h rt ∧
    (∀ name stop, runners h !! name = Some stop →
       chans rt !! stop = Some false) ∧
    (∀ name1 name2 stop,
       runners h !! name1 = Some stop → runners h !! name2 = Some stop →
       name1 = name2).
Proof.
  destruct (inv_run es 0 New Runtime0 inv_New)
    as (h & rt & Hrun & _ & [Hopen Hinj] & _).
  by exists h, rt.
Qed.

(* ================================================================== *)
(** ** Start *)

(** The loop of [Start], in closed form but for the runners. *)
Lemma Start_range_Done (l : list Config) (h : Monitor) (rt : Runtime) :
  ∃ h',
    for_range startRunnerForConfig h l rt =
      Done h'
        {| chans := chans rt ++ replicate (length l) false;
           heap := heap rt;
           spawned := spawned rt
             ++ imap (λ i c, go_lane c (length (chans rt) + i)%nat) l |} ∧
    Monitor_StatusListener h' = Monitor_StatusListener h ∧
    configs h' = configs h ∧ states h' = states h ∧
    started h' = started h ∧
    (∀ c, c ∈ l → ∃ stop, runners h' !! config.Name c = Some stop
                          ∧ (length (chans rt) ≤ stop)%nat) ∧
    (∀ name, (∀ c, c ∈ l → config.Name c ≠ name) →
       runners h' !! name = runners h !! name).
Proof.
  revert h rt. induction l as [|c l IH]; intros h rt.
  - exists h. simpl. rewrite !app_nil_r. split; [by destruct rt|].
    repeat split; try done. intros c Hc. by apply elem_of_nil in Hc.
  - simpl. unfold mbind, Go_bind. rewrite startRunnerForConfig_Done.
    destruct (IH (set_runners (<[config.Name c := length (chans rt)]>
                                 (runners h)) h)
                {| chans := chans rt ++ [false]; heap := heap rt;
                   spawned := spawned rt ++ [go_lane c (length (chans rt))] |})
      as (h' & Hrun & Hl & Hc & Hst & Hs & Hin & Hout).
    exists h'. simpl in *. split.
    { rewrite Hrun. f_equal. f_equal.
      - by rewrite <- app_assoc.
      - rewrite <- app_assoc. f_equal. simpl. f_equal.
        + f_equal. lia.
        + apply imap_ext. intros i c' _. rewrite length_app. simpl.
          f_equal. lia. }
    repeat split; try done.
    + intros c' [->|Hc']%elem_of_cons.
      2:{ destruct (Hin c' Hc') as (stop & Hstop & Hle).
          exists stop. split; [done|]. rewrite length_app in Hle.
          simpl in Hle. lia. }
      destruct (decide (config.Name c ∈ config.Name <$> l)) as [Hyes|Hno].
      * apply list_elem_of_fmap in Hyes as (c'' & -> & Hc'').
        destruct (Hin c'' Hc'') as (stop & Hstop & Hle).
        exists stop. split; [done|]. rewrite length_app in Hle. simpl in Hle.
        lia.
      * rewrite Hout.
        -- rewrite lookup_insert_eq. eauto.
        -- intros c'' Hc'' Hname. apply Hno. apply list_elem_of_fmap. eauto.
    + intros name Hname. rewrite Hout.
      * rewrite lookup_insert_ne; [done|]. apply Hname. left.
      * intros c' Hc'. apply Hname. by right.
Qed.

Lemma Start_Done (h : Monitor) (rt : Runtime) :
  started h = false →
  ∃ h' rt',
    Start h rt = Done (h', None) rt' ∧
    started h' = true ∧
    Monitor_StatusListener h' = Monitor_StatusListener h ∧
    configs h' = configs h ∧ states h' = states h ∧
    heap rt' = heap rt ∧
    chans rt' = chans rt ++ replicate (length (configs h)) false ∧
    spawned rt' = spawned rt
      ++ imap (λ i c, go_lane c (length (chans rt) + i)%nat) (configs h) ∧
    (∀ c, c ∈ configs h → ∃ stop, runners h' !! config.Name c = Some stop
                                  ∧ (length (chans rt) ≤ stop)%nat) ∧
    (∀ name, (∀ c, c ∈ configs h → config.Name c ≠ name) →
       runners h' !! name = runners h !! name).
Proof.
  intros Hs. unfold Start. rewrite Hs. cbv zeta.
  change (configs (set_started true h)) with (configs h).
  destruct (Start_range_Done (configs h) (set_started true h) rt)
    as (h' & Hrun & ? & ? & ? & ? & ? & ?).
  unfold mbind, Go_bind. rewrite Hrun. eexists _, _.
  split; [reflexivity|]. simpl. done.
Qed.

(** X2: [Start()] on a monitor that is not started, in any monitor that
    a history from [New()] has produced: it returns no error, marks
    the monitor started, starts one lane per registered descriptor, in
    the order of the registry and each with a channel of its own, and
    starts nothing else; afterwards every registered name has a runner
    whose channel is open.  Registry and stored states are as before,
    and so are the runners of names that are not registered. *)
Theorem Start_launches_every_check (h : Monitor) (rt : Runtime) :
  reachable h rt →
  started h = false →
  ∃ h' rt',
    Start h rt = Done (h', None) rt' ∧
    started h' = true ∧
    configs h' = configs h ∧
    states h' = states h ∧
    started_by rt rt' =
      imap (λ i c, go_lane c (length (chans rt) + i)%nat) (configs h) ∧
    (∀ c, c ∈ configs h →
       ∃ stop, runners h' !! config.Name c = Some stop
               ∧ chans rt' !! stop = Some false) ∧
    (∀ name, (∀ c, c ∈ configs h → config.Name c ≠ name) →
       runners h' !! name = runners h !! name).
Proof.
  intros Hreach Hs.
  destruct (Start_Done h rt Hs)
    as (h' & rt' & Hrun & Hs' & _ & Hc & Hst & _ & _ & Hsp & Hin & Hout).
  exists h', rt'. split; [exact Hrun|]. repeat split; try done.
  - unfold started_by. by rewrite Hsp, drop_app_length.
  - intros c Hcin. destruct (Hin c Hcin) as (stop & Hstop & _).
    exists stop. split; [done|].
    assert (reachable h' rt') as [Hopen _]%reachable_lanes_ok
      by (by eapply (reachable_invoke h h' rt rt' m_Start)).
    by eapply Hopen.
Qed.

(** X3: [Start()] twice.  On a monitor that is not started the first
    call succeeds; the second returns the already-started error and
    changes nothing: the monitor, the channels and the goroutines are
    as the first call left them. *)
Theorem Start_twice (h : Monitor) (rt : Runtime) :
  started h = false →
  ∃ h' rt',
    Start h rt = Done (h', None) rt' ∧
    Start h' rt' = Done (h', Some "monitor already started") rt'.
Proof.
  intros Hs. destruct (Start_Done h rt Hs) as (h' & rt' & Hrun & Hs' & _).
  exists h', rt'. split; [exact Hrun|]. unfold Start. by rewrite Hs'.
Qed.

Lemma Stop_Done_chans (h : Monitor) (rt : Runtime) :
  lanes_ok h rt →
  ∃ cs, Stop h rt =
          Done (set_started false (safeResetStates (set_runners ∅ h)), None)
               {| chans := cs; heap := heap rt; spawned := spawned rt |}
        ∧ (∀ name c, runners h !! name = Some c → cs !! c = Some true)
        ∧ (∀ c, (∀ name, runners h !! name ≠ Some c) →
             cs !! c = chans rt !! c).
Proof.
  intros Hok.
  destruct (close_range (map_to_list (runners h)) rt)
    as (cs & Hrun & Hother & Hclosed).
  - by eapply lanes_ok_NoDup.
  - intros [k c] Hkv. apply elem_of_map_to_list in Hkv.
    destruct Hok as [Hopen _]. by eapply Hopen.
  - exists cs. split; [|split].
    + unfold Stop, mbind, Go_bind. by rewrite Hrun.
    + intros name c Hc. apply Hclosed. apply list_elem_of_fmap.
      exists (name, c). split; [done|]. by apply elem_of_map_to_list.
    + intros c Hc. apply Hother. intros ([name c'] & -> & Hin)%list_elem_of_fmap.
      apply elem_of_map_to_list in Hin. by apply (Hc name).
Qed.

(** X4: [Stop()] then [Start()], in any monitor that a history from
    [New()] has produced: both succeed; the monitor is started again
    with an empty store of states, and every registered descriptor has
    a runner again, on an open channel that did not exist before the
    restart. *)
Theorem Stop_then_Start_restarts (h : Monitor) (rt : Runtime) :
  reachable h rt →
  ∃ h1 rt1 h2 rt2,
    Stop h rt = Done (h1, None) rt1 ∧
    Start h1 rt1 = Done (h2, None) rt2 ∧
    started h2 = true ∧
    configs h2 = configs h ∧
    states h2 = ∅ ∧
    ∀ c, c ∈ configs h →
      ∃ stop, runners h2 !! config.Name c = Some stop
              ∧ chans rt2 !! stop = Some false
              ∧ chans rt !! stop = None.
Proof.
  intros Hreach.
  pose proof (reachable_lanes_ok h rt Hreach) as Hlanes.
  destruct (Stop_Done_chans h rt Hlanes) as (cs & Hstop & Hclosed & Hother).
  set (h1 := set_started false (safeResetStates (set_runners ∅ h))) in *.
  set (rt1 := {| chans := cs; heap := heap rt; spawned := spawned rt |}) in *.
  assert (reachable h1 rt1) as Hreach1
    by (by eapply (reachable_invoke h h1 rt rt1 m_Stop)).
  destruct (Start_Done h1 rt1 eq_refl)
    as (h2 & rt2 & Hstart & Hs2 & _ & Hc2 & Hst2 & _ & _ & _ & Hin & _).
  assert (reachable h2 rt2) as [Hopen2 _]%reachable_lanes_ok
    by (by eapply (reachable_invoke h1 h2 rt1 rt2 m_Start)).
  exists h1, rt1, h2, rt2. repeat split; try done.
  intros c Hc. destruct (Hin c Hc) as (stop & Hrun & Hle).
  exists stop. split; [done|]. split; [by eapply Hopen2|].
  simpl in Hle.
  assert (cs !! stop = None) as Hnone by (apply lookup_ge_None; lia).
  rewrite <- Hother; [done|].
  intros name Hname. pose proof (Hclosed name stop Hname) as Htrue.
  unfold chan in *. congruence.
Qed.

(* ================================================================== *)
(** ** StartCheck *)

Lemma StartCheck_found_None (name : string) (l : list Config) :
  (∀ c, c ∈ l → config.Name c ≠ name) →
  ∀ found, StartCheck_found name found l = found.
Proof.
  induction l as [|c l IH]; intros Hall found; simpl; [done|].
  rewrite IH by (intros c' Hc'; apply Hall; by right).
  rewrite decide_False; [done|]. intros ->. by apply (Hall c); [left|].
Qed.

Lemma StartCheck_found_last (name : string) (pre post : list Config)
    (c : Config) (found : option Config) :
  config.Name c = name →
  (∀ c', c' ∈ post → config.Name c' ≠ name) →
  StartCheck_found name found (pre ++ c :: post) = Some c.
Proof.
  intros Hname Hpost. revert found.
  induction pre as [|c' pre IH]; intros found; simpl.
  - rewrite decide_True by done. by apply StartCheck_found_None.
  - apply IH.
Qed.

Lemma StartCheck_found_Some (name : string) (l : list Config) (c : Config) :
  is_Some (StartCheck_found name (Some c) l).
Proof.
  revert c. induction l as [|c' l IH]; intros c; simpl; [eauto|].
  case_decide; apply IH.
Qed.

Lemma StartCheck_found_elem (name : string) (l : list Config) (c : Config)
    (found : option Config) :
  c ∈ l → config.Name c = name →
  is_Some (StartCheck_found name found l).
Proof.
  intros Hc Hname. revert found.
  induction l as [|c' l IH]; intros found; [by apply elem_of_nil in Hc|].
  simpl. apply elem_of_cons in Hc as [<-|Hc]; [|by apply IH].
  rewrite decide_True by done. apply StartCheck_found_Some.
Qed.

Lemma StartCheck_found_name (name : string) (l : list Config)
    (found : option Config) (c : Config) :
  (∀ c0, found = Some c0 → config.Name c0 = name) →
  StartCheck_found name found l = Some c → config.Name c = name.
Proof.
  revert found. induction l as [|c' l IH]; intros found Hfound; simpl.
  - apply Hfound.
  - apply IH. case_decide; [|done]. by intros c0 [= <-].
Qed.

(** X5: [StartCheck(name)], whether the monitor is started or not.  If
    no descriptor has the name it returns the not-found error; if a
    descriptor has it and a runner exists under it, the already-running
    error; in both cases nothing changes.  Otherwise it succeeds and
    starts exactly one lane, for the _last_ registered descriptor of
    that name, on a new open channel that becomes the runner of the
    name; nothing else changes. *)
Theorem StartCheck_cases (h : Monitor) (rt : Runtime) (name : string) :
  ((∀ c, c ∈ configs h → config.Name c ≠ name) →
   StartCheck h name rt =
     Done (h, Some ("failed to find check with name " +:+ name)) rt)
  ∧
  (∀ c stop,
     c ∈ configs h → config.Name c = name →
     runners h !! name = Some stop →
     StartCheck h name rt = Done (h, Some "check already running") rt)
  ∧
  (∀ pre c post,
     configs h = pre ++ c :: post → config.Name c = name →
     (∀ c', c' ∈ post → config.Name c' ≠ name) →
     runners h !! name = None →
     StartCheck h name rt =
       Done (set_runners (<[name := length (chans rt)]> (runners h)) h, None)
            {| chans := chans rt ++ [false]; heap := heap rt;
               spawned := spawned rt ++ [go_lane c (length (chans rt))] |}).
Proof.
  split; [|split].
  - intros Hall. unfold StartCheck.
    by rewrite (StartCheck_found_None name (configs h) Hall).
  - intros c stop Hc Hname Hrun. unfold StartCheck.
    destruct (StartCheck_found_elem name (configs h) c None Hc Hname)
      as [found ->].
    by rewrite Hrun.
  - intros pre c post Hcfg Hname Hpost Hrun. unfold StartCheck.
    rewrite Hcfg, (StartCheck_found_last name pre post c None Hname Hpost).
    rewrite Hrun. unfold mbind, Go_bind.
    rewrite startRunnerForConfig_Done. by rewrite Hname.
Qed.

(** X6: [StopCheck(name)] then [StartCheck(name)] restarts a running
    check, in any monitor that a history from [New()] has produced and
    for any registered name with a runner: both calls succeed; the old
    channel is closed, the name has a runner again on a new, open
    channel, and it has no stored state until its next probe.  The
    states and runners of all other names, and the registry, are as
    before. *)
Theorem StopCheck_then_StartCheck_restarts (h : Monitor) (rt : Runtime)
    (c : Config) (stop : chan) :
  reachable h rt →
  c ∈ configs h →
  runners h !! config.Name c = Some stop →
  ∃ h1 rt1 h2 rt2,
    StopCheck h (config.Name c) rt = Done (h1, None) rt1 ∧
    StartCheck h1 (config.Name c) rt1 = Done (h2, None) rt2 ∧
    runners h2 !! config.Name c = Some (length (chans rt)) ∧
    length (chans rt) ≠ stop ∧
    chans rt2 !! stop = Some true ∧
    chans rt2 !! length (chans rt) = Some false ∧
    states h2 !! config.Name c = None ∧
    configs h2 = configs h ∧
    started h2 = started h ∧
    ∀ other, other ≠ config.Name c →
      states h2 !! other = states h !! other ∧
      runners h2 !! other = runners h !! other.
Proof.
  intros [Hopen _]%reachable_lanes_ok Hc Hrun.
  pose proof (Hopen _ _ Hrun) as Hstop.
  pose proof (lookup_lt_Some _ _ _ Hstop) as Hlt.
  destruct (StartCheck_found_elem (config.Name c) (configs h) c None Hc
              eq_refl) as [found Hfound].
  assert (config.Name found = config.Name c) as Hname.
  { apply (StartCheck_found_name _ (configs h) None found); [|done].
    by intros c0 [=]. }
  eexists _, _, _, _.
  split; [by apply StopCheck_running|].
  split.
  { unfold StartCheck. cbn [configs set_states set_runners runners].
    rewrite Hfound, lookup_delete_eq. unfold mbind, Go_bind.
    rewrite startRunnerForConfig_Done. cbn [chans]. rewrite length_insert.
    reflexivity. }
  cbn -[insert delete]. rewrite Hname.
  rewrite lookup_insert_eq, lookup_delete_eq.
  split; [done|]. split; [unfold chan in *; lia|].
  split; [by apply lookup_app_l_Some, list_lookup_insert_eq|].
  split.
  { rewrite <- (length_insert (chans rt) stop true). apply heap_lookup_new. }
  repeat split; try done.
  - by rewrite lookup_delete_ne.
  - by rewrite lookup_insert_ne, lookup_delete_ne.
Qed.

(* ================================================================== *)
(** ** What the methods leave alone *)

Lemma StopCheck_Done_inv (h h' : Monitor) (name : string) (e : error)
    (rt rt' : Runtime) :
  StopCheck h name rt = Done (h', e) rt' →
  (∃ stop, runners h !! name = Some stop ∧ chans rt !! stop = Some false ∧
     e = None ∧
     h' = set_states (delete name (states h))
            (set_runners (delete name (runners h)) h) ∧
     rt' = {| chans := <[stop := true]> (chans rt); heap := heap rt;
              spawned := spawned rt |})
  ∨ (runners h !! name = None ∧ is_Some e ∧ h' = h ∧ rt' = rt).
Proof.
  unfold StopCheck, mbind, mret, Go_bind, Go_ret.
  destruct (runners h !! name) as [stop|] eqn:Hrun.
  - rewrite close_unfold. destruct (chans rt !! stop) as [[]|] eqn:Hstop;
      [done| |done].
    intros [= <- <- <-]. left. by exists stop.
  - intros [= <- <- <-]. right. eauto.
Qed.

Lemma close_range_frame (l : list (string * chan)) (rt rt' : Runtime) :
  for_range (λ (_ : unit) (kv : string * chan), close kv.2) tt l rt
    = Done tt rt' →
  heap rt' = heap rt ∧ spawned rt' = spawned rt.
Proof.
  revert rt. induction l as [|[k c] l IH]; intros rt; simpl.
  - by intros [= <-].
  - unfold mbind, Go_bind. rewrite close_unfold.
    destruct (chans rt !! c) as [[]|]; [done| |done].
    intros [-> ->]%IH. done.
Qed.

Ltac no_error := repeat split; try done; try (by intros [? [=]]).

(** The shape of a returned call: what it may have done to the stored
    states, the heap and the goroutines, and what an error means. *)
Lemma invoke_frame (h h' : Monitor) (m : method) (e : error)
    (rt rt' : Runtime) :
  invoke h m rt = Done (h', e) rt' →
  states h' ⊆ states h ∧ heap rt' = heap rt ∧
  (∃ lanes, spawned rt' = spawned rt ++ lanes
            ∧ Forall (λ g, is_lane g = true) lanes) ∧
  (is_Some e → h' = h ∧ rt' = rt).
Proof.
  assert (Hnil : ∀ rt0 : Runtime, ∃ lanes,
            spawned rt0 = spawned rt0 ++ lanes
            ∧ Forall (λ g, is_lane g = true) lanes).
  { intros rt0. exists []. by rewrite app_nil_r. }
  assert (Hstop : ∀ name h1 e1 rt1,
    StopCheck h name rt = Done (h1, e1) rt1 →
    states h1 ⊆ states h ∧ heap rt1 = heap rt ∧ spawned rt1 = spawned rt ∧
    (is_Some e1 → h1 = h ∧ rt1 = rt)).
  { intros name h1 e1 rt1
      [(stop & _ & _ & -> & -> & ->)|(_ & He & -> & ->)]%StopCheck_Done_inv.
    - simpl. split; [apply delete_subseteq|]. no_error.
    - done. }
  destruct m as [cfg|cfg| |name|name| | |l]; simpl.
  - unfold AddCheck. destruct (AddCheck_configs _ _);
      intros [= <- <- <-]; no_error.
  - unfold RemoveCheck. generalize 0%nat.
    induction (configs h) as [|existing rest IH]; intros idx; simpl.
    + intros [= <- <- <-]. done.
    + case_decide; [|apply IH]. destruct (started h).
      * unfold mbind, Go_bind.
        destruct (StopCheck h (config.Name cfg) rt) as [[h1 e1] rt1|] eqn:Hs;
          [|done].
        destruct (Hstop _ _ _ _ Hs) as (Hsub & Hheap & Hsp & Herr).
        destruct e1 as [msg|]; intros [= <- <- <-].
        -- destruct Herr as [-> ->]; [eauto|].
           split; [done|]. split; [done|]. split; [apply Hnil|done].
        -- simpl. split; [done|]. split; [done|]. split; [|no_error].
           exists []. by rewrite app_nil_r.
      * intros [= <- <- <-]. simpl.
        split; [done|]. split; [done|]. split; [apply Hnil|no_error].
  - destruct (started h) eqn:Hs.
    + unfold Start. rewrite Hs. by intros [= <- <- <-].
    + destruct (Start_Done h rt Hs)
        as (h1 & rt1 & -> & _ & _ & _ & Hst & Hheap & _ & Hsp & _).
      intros [= <- <- <-]. rewrite Hst.
      split; [done|]. split; [done|]. split; [|no_error].
      * eexists. split; [exact Hsp|]. clear.
        generalize (length (chans rt)). induction (configs h) as [|c l IH];
          intros n; [done|]. simpl. constructor; [done|].
        rewrite (imap_ext _ (λ i c0, go_lane c0 (S n + i)%nat)); [apply IH|].
        intros i c0 _. simpl. f_equal. lia.
  - unfold StartCheck. destruct (StartCheck_found _ _ _) as [found|];
      [|by intros [= <- <- <-]].
    destruct (runners h !! name); [by intros [= <- <- <-]|].
    unfold mbind, Go_bind. rewrite startRunnerForConfig_Done.
    intros [= <- <- <-]. simpl.
    split; [done|]. split; [done|]. split; [|no_error].
    eexists. split; [done|]. by constructor.
  - intros Hs. destruct (Hstop _ _ _ _ Hs) as (? & ? & Hsp & ?).
    split; [done|]. split; [done|]. split; [|done].
    exists []. by rewrite app_nil_r, Hsp.
  - unfold Stop, mbind, Go_bind.
    destruct (for_range _ tt _ rt) as [[] rt1|] eqn:Hclose; [|done].
    apply close_range_frame in Hclose as [Hheap Hsp].
    intros [= <- <- <-]. simpl. split; [apply map_empty_subseteq|].
    split; [done|]. split; [|no_error].
    exists []. by rewrite app_nil_r, Hsp.
  - intros [= <- <- <-]. done.
  - intros [= <- <- <-]. simpl. no_error.
Qed.

(** X7: a method call that returns an error has changed nothing: the
    monitor and the runtime (channels, heap, goroutines) are exactly
    as before the call.  This holds for every method and every
    monitor. *)
Theorem failed_call_changes_nothing (h h' : Monitor) (m : method)
    (msg : string) (rt rt' : Runtime) :
  invoke h m rt = Done (h', Some msg) rt' →
  h' = h ∧ rt' = rt.
Proof. intros (_ & _ & _ & Herr)%invoke_frame. apply Herr. eauto. Qed.

(** X8: no method call writes a stored state or calls the listener or a
    completion hook: after a call that returns, every stored state is
    one that was stored before, unchanged (entries can only have been
    deleted); the state objects of the heap are untouched; and the
    only goroutines the call has started are lanes. *)
Theorem methods_never_write_states (h h' : Monitor) (m : method)
    (e : error) (rt rt' : Runtime) :
  invoke h m rt = Done (h', e) rt' →
  (∀ name s, states h' !! name = Some s → states h !! name = Some s) ∧
  heap rt' = heap rt ∧
  Forall (λ g, is_lane g = true) (started_by rt rt') ∧
  notifications rt rt' = [].
Proof.
  intros (Hsub & Hheap & (lanes & Hsp & Hlanes) & _)%invoke_frame.
  split; [|split; [done|]].
  - intros name s Hs. by eapply lookup_weaken.
  - unfold notifications, started_by. rewrite Hsp, drop_app_length.
    split; [done|]. clear Hsp.
    induction Hlanes as [|g lanes Hg _ IH]; [done|].
    rewrite filter_cons. by destruct g.
Qed.

(* ================================================================== *)
(** ** Invariants of the store and of the registry *)

(** A property of stored states that every probe invocation
    establishes for its entry holds of all stored states of all
    reachable monitors. *)
Lemma stored_states_ind (P : string → State → Prop) :
  (∀ (cfg : Config) (o : Observation) (prevState : State),
     P (config.Name cfg)
       (detected prevState (candidate cfg o) (detectTime o))) →
  ∀ es h rt h' rt',
    (∀ name s, states h !! name = Some s → P name s) →
    run h es rt = Done h' rt' →
    ∀ name s, states h' !! name = Some s → P name s.
Proof.
  intros Hprobe es. induction es as [|e es IH]; intros h rt h' rt' Hh.
  - by intros [= <- <-].
  - unfold run. simpl. unfold mbind, Go_bind.
    destruct (step h e rt) as [h1 rt1|] eqn:Hstep; [|done].
    apply IH. destruct e as [m|cfg o]; simpl in Hstep.
    + unfold mbind, Go_bind in Hstep.
      destruct (invoke h m rt) as [[h2 e2] rt2|] eqn:Hm; [|done].
      injection Hstep as -> ->.
      apply invoke_frame in Hm as (Hsub & _).
      intros name s Hs. apply Hh. by eapply lookup_weaken.
    + rewrite checkFunc_Done in Hstep. injection Hstep as <- <-. simpl.
      intros name s [[<- <-]|[_ Hs]]%lookup_insert_Some; [|by apply Hh].
      apply Hprobe.
Qed.

(** X9: in every monitor that a history from [New()] has produced,
    with no bound on its length, a stored state is filed under its own
    name, and it is either ["ok"], with empty error text, no failure
    counted and the zero time of first failure, or ["failed"]. *)
Theorem stored_state_shape (h : Monitor) (rt : Runtime) (name : string)
    (s : State) :
  reachable h rt →
  states h !! name = Some s →
  Name s = name ∧
  (Status s = "ok" ∧ Err s = "" ∧ ContiguousFailures s = 0
     ∧ TimeOfFirstFailure s = zero_Time
   ∨ Status s = "failed").
Proof.
  intros [es Hrun].
  apply (stored_states_ind
    (λ name s, Name s = name ∧
       (Status s = "ok" ∧ Err s = "" ∧ ContiguousFailures s = 0
          ∧ TimeOfFirstFailure s = zero_Time
        ∨ Status s = "failed")) ) with (es := es) (h := New) (rt := Runtime0)
    (rt' := rt); [| |done].
  - intros cfg o prevState. rewrite detected_candidate.
    destruct (err o); simpl; (split; [done|]); [by right | by left].
  - intros name' s'. simpl. by rewrite lookup_empty.
Qed.

Lemma RemoveCheck_range_configs (h h' : Monitor) (cfg : Config)
    (rest : list Config) (idx : nat) (e : error) (rt rt' : Runtime) :
  RemoveCheck_range h cfg idx rest rt = Done (h', e) rt' →
  configs h' = configs h ∨ ∃ i, configs h' = delete i (configs h).
Proof.
  revert idx. induction rest as [|existing rest IH]; intros idx; simpl.
  - intros [= <- <- <-]. by left.
  - case_decide; [|apply IH]. destruct (started h).
    + unfold mbind, Go_bind.
      destruct (StopCheck h (config.Name cfg) rt) as [[h1 e1] rt1|] eqn:Hs;
        [|done].
      apply StopCheck_Done_inv in Hs
        as [(stop & _ & _ & -> & -> & ->)|(_ & [msg ->] & -> & ->)].
      * intros [= <- <- <-]. right. exists idx. simpl.
        by rewrite delete_take_drop.
      * intros [= <- <- <-]. by left.
    + intros [= <- <- <-]. right. exists idx. simpl.
      by rewrite delete_take_drop.
Qed.

(** What a returned call has done to the registry. *)
Lemma invoke_configs (h h' : Monitor) (m : method) (e : error)
    (rt rt' : Runtime) :
  invoke h m rt = Done (h', e) rt' →
  (∃ cfg, m = m_AddCheck cfg ∧ configs h' = configs h ++ cfg ∧
     ∀ c existing, c ∈ cfg → existing ∈ configs h →
       config.Name c ≠ config.Name existing)
  ∨ configs h' `sublist_of` configs h.
Proof.
  destruct m as [cfg|cfg| |name|name| | |l]; simpl.
  - unfold AddCheck.
    destruct (AddCheck_configs (configs h) cfg) eqn:Hadd;
      intros [= <- <- <-]; [by right|].
    left. exists cfg. split; [done|]. split; [done|].
    by apply AddCheck_configs_None.
  - intros [->|[i ->]]%RemoveCheck_range_configs; right;
      [done | apply sublist_delete].
  - destruct (started h) eqn:Hs.
    + unfold Start. rewrite Hs. intros [= <- <- <-]. by right.
    + destruct (Start_Done h rt Hs) as (h1 & rt1 & -> & _ & _ & Hc & _).
      intros [= <- <- <-]. right. by rewrite Hc.
  - unfold StartCheck. destruct (StartCheck_found _ _ _) as [found|];
      [|intros [= <- <- <-]; by right].
    destruct (runners h !! name); [intros [= <- <- <-]; by right|].
    unfold mbind, Go_bind. rewrite startRunnerForConfig_Done.
    intros [= <- <- <-]. by right.
  - intros [(stop & _ & _ & -> & -> & ->)|(_ & _ & -> & ->)]%StopCheck_Done_inv;
      by right.
  - unfold Stop, mbind, Go_bind.
    destruct (for_range _ tt _ rt) as [[] rt1|]; [|done].
    intros [= <- <- <-]. by right.
  - intros [= <- <- <-]. by right.
  - intros [= <- <- <-]. by right.
Qed.

(** X10: if every call of [AddCheck] in a history from [New()] passes
    descriptors of pairwise different names, the names of the
    registered descriptors are pairwise different in the monitor the
    history leaves. *)
Theorem registry_names_distinct (es : list event) (h : Monitor)
    (rt : Runtime) :
  distinct_batches es →
  run New es Runtime0 = Done h rt →
  NoDup (config.Name <$> configs h).
Proof.
  assert (Hgen : ∀ es h0 rt0,
    distinct_batches es → NoDup (config.Name <$> configs h0) →
    run h0 es rt0 = Done h rt → NoDup (config.Name <$> configs h)).
  { clear es. intros es. induction es as [|e es IH]; intros h0 rt0 Hd Hnd.
    - by intros [= <- <-].
    - unfold run. simpl. unfold mbind, Go_bind.
      destruct (step h0 e rt0) as [h1 rt1|] eqn:Hstep; [|done].
      apply IH.
      { intros cfg Hcfg. apply Hd. by right. }
      destruct e as [m|cfg o]; simpl in Hstep.
      + unfold mbind, Go_bind in Hstep.
        destruct (invoke h0 m rt0) as [[h2 e2] rt2|] eqn:Hm; [|done].
        injection Hstep as -> ->.
        apply invoke_configs in Hm as [(cfg & -> & -> & Hfree)|Hsub].
        * rewrite fmap_app. apply NoDup_app. split; [done|]. split.
          -- intros name (existing & -> & He)%list_elem_of_fmap
               (c & Hname & Hc)%list_elem_of_fmap.
             by apply (Hfree c existing).
          -- apply Hd. left.
        * eapply sublist_NoDup; [exact Hnd|]. by apply fmap_sublist.
      + rewrite checkFunc_Done in Hstep. by injection Hstep as <- <-. }
  intros Hd Hrun. eapply Hgen; [exact Hd| |exact Hrun]. constructor.
Qed.

(* ================================================================== *)
(** ** The detector, over a streak *)

Lemma filter_completed (cfg : Config) (p : ptr) :
  filter (λ g, is_notification g) (completed cfg p) = [].
Proof. unfold completed. by destruct (config.OnComplete cfg). Qed.

(** Consecutive failed probes of a check that is already failing. *)
Lemma still_failing_run (cfg : Config) (l : StatusListener)
    (os : list Observation) :
  ∀ (h : Monitor) (rt : Runtime) (prevState : State),
    Monitor_StatusListener h = Some l →
    states h !! config.Name cfg = Some prevState →
    isFailure prevState = true →
    0 ≤ ContiguousFailures prevState →
    ContiguousFailures prevState + Z.of_nat (length os) ≤ max_int64 →
    Forall (λ o, is_Some (err o)) os →
    ∃ h' rt' s gs,
      run h (Probe cfg <$> os) rt = Done h' rt' ∧
      Monitor_StatusListener h' = Some l ∧
      states h' !! config.Name cfg = Some s ∧
      isFailure s = true ∧
      TimeOfFirstFailure s = TimeOfFirstFailure prevState ∧
      ContiguousFailures s
        = ContiguousFailures prevState + Z.of_nat (length os) ∧
      length (heap rt') = (length (heap rt) + length os)%nat ∧
      spawned rt' = spawned rt ++ gs ∧
      filter (λ g, is_notification g) gs =
        imap (λ i _, go_StillFailing l (length (heap rt) + i)%nat
                       (ContiguousFailures prevState + Z.of_nat i)) os.
Proof.
  induction os as [|o os IH]; intros h rt prevState Hl Hprev Hf H0 Hmax Hos.
  - exists h, rt, prevState, []. simpl. rewrite Z.add_0_r, Nat.add_0_r, app_nil_r.
    done.
  - apply Forall_cons in Hos as [[msg Herr] Hos].
    rewrite length_cons, Nat2Z.inj_succ in Hmax.
    pose proof (checkFunc_Done h cfg o rt) as Hstep. cbv zeta in Hstep.
    rewrite Hprev in Hstep. simpl in Hstep.
    rewrite detected_candidate, Herr, Hf in Hstep.
    rewrite add64_1 in Hstep by lia.
    unfold announced in Hstep.
    rewrite Hl, isFailure_candidate, Herr, Hf in Hstep. simpl in Hstep.
    match type of Hstep with _ = Done ?h1 ?rt1 =>
      destruct (IH h1 rt1
        {| Name := config.Name cfg; Status := "failed"; Err := msg;
           Details := data o; CheckTime := checkTime o;
           ContiguousFailures := ContiguousFailures prevState + 1;
           TimeOfFirstFailure := TimeOfFirstFailure prevState |})
        as (h' & rt' & s & gs & Hrun & Hl' & Hs & Hfs & Htoff & Hcf & Hlen
            & Hsp & Hgs)
    end; simpl; try done.
    + apply lookup_insert_eq.
    + lia.
    + lia.
    + exists h', rt', s.
      exists (go_StillFailing l (length (heap rt)) (ContiguousFailures prevState)
                :: completed cfg (length (heap rt)) ++ gs).
      split.
      { unfold run in *. simpl. unfold mbind, Go_bind. by rewrite Hstep. }
      simpl in *. split; [done|]. split; [done|]. split; [done|].
      split; [done|]. split; [lia|]. split.
      { rewrite Hlen, length_app. simpl. lia. }
      split.
      { rewrite Hsp. by rewrite <- !app_assoc. }
      rewrite filter_cons. simpl. rewrite filter_app, filter_completed.
      simpl. rewrite Hgs. f_equal.
      * f_equal; [lia | f_equal; lia].
      * apply imap_ext. intros i o' _. simpl. rewrite length_app. simpl.
        f_equal; lia.
Qed.

(** The first failed probe of a check that was not failing. *)
Lemma first_failure_step (h : Monitor) (rt : Runtime) (cfg : Config)
    (o : Observation) (msg : string) (l : StatusListener) :
  reachable h rt →
  (∀ prevState, states h !! config.Name cfg = Some prevState →
     isFailure prevState = false) →
  err o = Some msg →
  Monitor_StatusListener h = Some l →
  checkFunc h cfg o rt =
    Done (set_states
            (<[config.Name cfg :=
                 {| Name := config.Name cfg; Status := "failed"; Err := msg;
                    Details := data o; CheckTime := checkTime o;
                    ContiguousFailures := 1;
                    TimeOfFirstFailure := detectTime o |}]> (states h)) h)
         {| chans := chans rt;
            heap := heap rt ++
              [{| Name := config.Name cfg; Status := "failed"; Err := msg;
                  Details := data o; CheckTime := checkTime o;
                  ContiguousFailures := 1;
                  TimeOfFirstFailure := detectTime o |}];
            spawned := spawned rt
              ++ [go_CheckFailed l (length (heap rt))]
              ++ completed cfg (length (heap rt)) |}.
Proof.
  intros Hreach Hprev Herr Hl.
  pose proof (checkFunc_Done h cfg o rt) as Hstep. cbv zeta in Hstep.
  set (prevState := default zero_State (states h !! config.Name cfg)) in *.
  assert (isFailure prevState = false ∧ ContiguousFailures prevState = 0)
    as [Hnf Hzero].
  { subst prevState.
    destruct (states h !! config.Name cfg) as [p|] eqn:Hp; simpl; [|done].
    split; [by apply Hprev|].
    destruct (reachable_states_ok h rt Hreach _ _ Hp) as [_ [[_ ?]|Hf]];
      [done|].
    specialize (Hprev p eq_refl). unfold isFailure in Hprev.
    by apply bool_decide_eq_false_1 in Hprev. }
  rewrite detected_candidate, Herr, Hnf, Hzero in Hstep.
  unfold announced in Hstep.
  by rewrite Hl, isFailure_candidate, Herr, Hnf in Hstep.
Qed.

(** Consecutive failed probes of a check that was not failing. *)
Lemma failure_streak_run (h : Monitor) (rt : Runtime) (cfg : Config)
    (o : Observation) (os : list Observation) (l : StatusListener) :
  reachable h rt →
  Monitor_StatusListener h = Some l →
  (∀ prevState, states h !! config.Name cfg = Some prevState →
     isFailure prevState = false) →
  Forall (λ o, is_Some (err o)) (o :: os) →
  Z.of_nat (length (o :: os)) ≤ max_int64 →
  ∃ h' rt' s gs,
    run h (Probe cfg <$> o :: os) rt = Done h' rt' ∧
    Monitor_StatusListener h' = Some l ∧
    states h' !! config.Name cfg = Some s ∧
    Status s = "failed" ∧
    ContiguousFailures s = Z.of_nat (length (o :: os)) ∧
    TimeOfFirstFailure s = detectTime o ∧
    length (heap rt') = (length (heap rt) + length (o :: os))%nat ∧
    spawned rt' = spawned rt ++ gs ∧
    filter (λ g, is_notification g) gs =
      go_CheckFailed l (length (heap rt))
      :: imap (λ i _, go_StillFailing l (length (heap rt) + 1 + i)%nat
                        (1 + Z.of_nat i)) os.
Proof.
  intros Hreach Hl Hprev [[msg Herr] Hos]%Forall_cons Hmax.
  rewrite length_cons, Nat2Z.inj_succ in Hmax.
  pose proof (first_failure_step h rt cfg o msg l Hreach Hprev Herr Hl)
    as Hstep.
  match type of Hstep with _ = Done ?h1 ?rt1 =>
    destruct (still_failing_run cfg l os h1 rt1
      {| Name := config.Name cfg; Status := "failed"; Err := msg;
         Details := data o; CheckTime := checkTime o;
         ContiguousFailures := 1; TimeOfFirstFailure := detectTime o |})
      as (h' & rt' & s & gs & Hrun & Hl' & Hs & Hfs & Htoff & Hcf & Hlen
          & Hsp & Hgs)
  end; simpl; try done.
  - apply lookup_insert_eq.
  - lia.
  - exists h', rt', s.
    exists (go_CheckFailed l (length (heap rt))
              :: completed cfg (length (heap rt)) ++ gs).
    split.
    { unfold run in *. simpl. unfold mbind, Go_bind. by rewrite Hstep. }
    simpl in *. split; [done|]. split; [done|]. split.
    { unfold isFailure in Hfs. by apply bool_decide_eq_true_1 in Hfs. }
    split; [lia|]. split; [done|]. split.
    { rewrite Hlen, length_app. simpl. lia. }
    split.
    { rewrite Hsp. by rewrite <- !app_assoc. }
    rewrite filter_cons. simpl.
    rewrite filter_app, filter_completed. simpl. rewrite Hgs.
    f_equal. apply imap_ext. intros i o' _. simpl. rewrite length_app.
    simpl. f_equal; lia.
Qed.

(** X11: a streak.  In a monitor that a history from [New()] has
    produced and that has a listener, let a check that is not failing
    (or has no stored state) be probed [k >= 1] times in a row, all
    failed, [k] below [2^63].  Then its stored state is ["failed"],
    counts [k] failures and has as time of first failure the
    detector's clock reading at the first of them; the listener calls
    started are one [CheckFailed], for the first probe, followed by
    one [StillFailing] for each further probe, reporting [1], [2],
    ..., [k-1]; each call is on the entry of its own probe. *)
Theorem failure_streak (h : Monitor) (rt : Runtime) (cfg : Config)
    (o : Observation) (os : list Observation) (l : StatusListener) :
  reachable h rt →
  Monitor_StatusListener h = Some l →
  (∀ prevState, states h !! config.Name cfg = Some prevState →
     isFailure prevState = false) →
  Forall (λ o, is_Some (err o)) (o :: os) →
  Z.of_nat (length (o :: os)) ≤ max_int64 →
  ∃ h' rt' s,
    run h (Probe cfg <$> o :: os) rt = Done h' rt' ∧
    states h' !! config.Name cfg = Some s ∧
    Status s = "failed" ∧
    ContiguousFailures s = Z.of_nat (length (o :: os)) ∧
    TimeOfFirstFailure s = detectTime o ∧
    notifications rt rt' =
      go_CheckFailed l (length (heap rt))
      :: imap (λ i _, go_StillFailing l (length (heap rt) + 1 + i)%nat
                        (1 + Z.of_nat i)) os.
Proof.
  intros Hreach Hl Hprev Hos Hmax.
  destruct (failure_streak_run h rt cfg o os l Hreach Hl Hprev Hos Hmax)
    as (h' & rt' & s & gs & Hrun & _ & Hs & Hst & Hcf & Htoff & _ & Hsp & Hgs).
  exists h', rt', s. repeat split; try done.
  unfold notifications, started_by. by rewrite Hsp, drop_app_length.
Qed.

Lemma reachable_run (es : list event) (h h' : Monitor)
    (rt rt' : Runtime) :
  reachable h rt → run h es rt = Done h' rt' → reachable h' rt'.
Proof.
  intros [es0 Hrun0] Hrun. exists (es0 ++ es). rewrite run_app.
  unfold mbind, Go_bind. by rewrite Hrun0.
Qed.

(** A streak of failed probes and the passing probe that ends it. *)
Lemma cycle_run (h : Monitor) (rt : Runtime) (cfg : Config)
    (o : Observation) (os : list Observation) (o_ok : Observation)
    (l : StatusListener) :
  reachable h rt →
  Monitor_StatusListener h = Some l →
  (∀ prevState, states h !! config.Name cfg = Some prevState →
     isFailure prevState = false) →
  Forall (λ o, is_Some (err o)) (o :: os) →
  Z.of_nat (length (o :: os)) ≤ max_int64 →
  err o_ok = None →
  ∃ h' rt' s gs,
    run h (Probe cfg <$> (o :: os) ++ [o_ok]) rt = Done h' rt' ∧
    Monitor_StatusListener h' = Some l ∧
    states h' !! config.Name cfg = Some s ∧
    Status s = "ok" ∧
    ContiguousFailures s = 0 ∧
    TimeOfFirstFailure s = zero_Time ∧
    length (heap rt') = (length (heap rt) + length (o :: os) + 1)%nat ∧
    spawned rt' = spawned rt ++ gs ∧
    filter (λ g, is_notification g) gs =
      go_CheckFailed l (length (heap rt))
      :: imap (λ i _, go_StillFailing l (length (heap rt) + 1 + i)%nat
                        (1 + Z.of_nat i)) os
      ++ [go_CheckRecovered l (length (heap rt) + length (o :: os))%nat
            (Z.of_nat (length (o :: os)))
            (Seconds (Sub (detectTime o_ok) (detectTime o)))].
Proof.
  intros Hreach Hl Hprev Hos Hmax Hok.
  destruct (failure_streak_run h rt cfg o os l Hreach Hl Hprev Hos Hmax)
    as (h1 & rt1 & s1 & gs & Hrun & Hl1 & Hs1 & Hst1 & Hcf1 & Htoff1 & Hlen1
        & Hsp1 & Hgs).
  pose proof (checkFunc_Done h1 cfg o_ok rt1) as Hstep. cbv zeta in Hstep.
  rewrite Hs1 in Hstep. simpl in Hstep.
  assert (isFailure s1 = true) as Hf1
    by (unfold isFailure; by apply bool_decide_eq_true_2).
  rewrite detected_candidate, Hok in Hstep. unfold announced in Hstep.
  rewrite Hl1, isFailure_candidate, Hok, Hf1 in Hstep. simpl in Hstep.
  eexists _, _, _, _. split.
  { rewrite fmap_app, run_app. unfold mbind, Go_bind. rewrite Hrun.
    unfold run. simpl. unfold mbind, Go_bind. rewrite Hstep. reflexivity. }
  simpl. split; [done|]. split; [apply lookup_insert_eq|].
  split; [done|]. split; [done|]. split; [done|]. split.
  { rewrite length_app, Hlen1. simpl. lia. }
  split.
  { rewrite Hsp1, <- app_assoc. reflexivity. }
  rewrite filter_app, filter_cons. simpl.
  rewrite filter_completed, Hgs, Hlen1, Hcf1, Htoff1. reflexivity.
Qed.

(** X12: a streak and its end.  If the [k] failed probes of the streak
    above are followed by a probe of the same check that passes, the
    stored state is ["ok"] again with no failure counted and the zero
    time of first failure, and one more listener call is started:
    [CheckRecovered], reporting [k] failures and the seconds from the
    detector's clock reading at the first failure to its reading at
    the recovery. *)
Theorem recovery_after_streak (h : Monitor) (rt : Runtime) (cfg : Config)
    (o : Observation) (os : list Observation) (o_ok : Observation)
    (l : StatusListener) :
  reachable h rt →
  Monitor_StatusListener h = Some l →
  (∀ prevState, states h !! config.Name cfg = Some prevState →
     isFailure prevState = false) →
  Forall (λ o, is_Some (err o)) (o :: os) →
  Z.of_nat (length (o :: os)) ≤ max_int64 →
  err o_ok = None →
  ∃ h' rt' s,
    run h (Probe cfg <$> (o :: os) ++ [o_ok]) rt = Done h' rt' ∧
    states h' !! config.Name cfg = Some s ∧
    Status s = "ok" ∧
    ContiguousFailures s = 0 ∧
    TimeOfFirstFailure s = zero_Time ∧
    notifications rt rt' =
      go_CheckFailed l (length (heap rt))
      :: imap (λ i _, go_StillFailing l (length (heap rt) + 1 + i)%nat
                        (1 + Z.of_nat i)) os
      ++ [go_CheckRecovered l (length (heap rt) + length (o :: os))%nat
            (Z.of_nat (length (o :: os)))
            (Seconds (Sub (detectTime o_ok) (detectTime o)))].
Proof.
  intros Hreach Hl Hprev Hos Hmax Hok.
  destruct (cycle_run h rt cfg o os o_ok l Hreach Hl Hprev Hos Hmax Hok)
    as (h' & rt' & s & gs & Hrun & _ & Hs & Hst & Hcf & Htoff & _ & Hsp & Hgs).
  exists h', rt', s. repeat split; try done.
  unfold notifications, started_by. by rewrite Hsp, drop_app_length.
Qed.

(* ================================================================== *)
(** ** The detector, case by case *)

(** X13: nothing to report.  When the new observation is ok and the
    check has no stored state, or one that is not failing, the probe
    invocation starts no listener call at all; the stored state is the
    new entry, ["ok"] with no failure counted. *)
Theorem ok_after_ok_is_silent (h : Monitor) (rt : Runtime) (cfg : Config)
    (o : Observation) :
  (∀ prevState, states h !! config.Name cfg = Some prevState →
     isFailure prevState = false) →
  err o = None →
  ∃ h' rt' entry,
    checkFunc h cfg o rt = Done h' rt' ∧
    states h' !! config.Name cfg = Some entry ∧
    Status entry = "ok" ∧
    ContiguousFailures entry = 0 ∧
    CheckTime entry = checkTime o ∧
    Details entry = data o ∧
    notifications rt rt' = [].
Proof.
  intros Hprev Herr.
  destruct (checkFunc_stored h cfg o rt) as (h' & rt' & Hrun & Hst & _ & Hn).
  assert (isFailure (default zero_State (states h !! config.Name cfg))
          = false) as Hnf.
  { destruct (states h !! config.Name cfg) as [p|]; [by apply Hprev|done]. }
  rewrite detected_candidate, Herr in Hst. unfold announced in Hn.
  rewrite isFailure_candidate, Herr, Hnf in Hn. simpl in Hn.
  eexists h', rt', _. split; [exact Hrun|]. split; [exact Hst|].
  simpl. repeat split. by destruct (Monitor_StatusListener h).
Qed.

(** X14: the listener only observes.  Whatever listener is attached, or
    none, a probe invocation leaves the same stored states, the same
    state object in the heap and the same channels; and with no
    listener attached it starts no listener call. *)
Theorem listener_only_observes (h : Monitor) (rt : Runtime) (cfg : Config)
    (o : Observation) (l : option StatusListener) :
  ∃ h1 rt1 h2 rt2,
    checkFunc h cfg o rt = Done h1 rt1 ∧
    checkFunc (set_StatusListener l h) cfg o rt = Done h2 rt2 ∧
    states h2 = states h1 ∧
    heap rt2 = heap rt1 ∧
    chans rt2 = chans rt1 ∧
    (l = None → notifications rt rt2 = []).
Proof.
  eexists _, _, _, _.
  split; [apply checkFunc_Done|]. split; [apply checkFunc_Done|].
  simpl. repeat split. intros ->.
  unfold notifications, started_by. simpl.
  by rewrite drop_app_length, filter_completed.
Qed.

(** X15: the completion hook.  A probe invocation of a check with a hook
    starts exactly one call of it, after the listener calls and on the
    very object that the listener calls got, whose content is the
    state just stored; a check without a hook gets no such call.  The
    goroutines the invocation starts are these and no others. *)
Theorem OnComplete_once_per_probe (h : Monitor) (rt : Runtime) (cfg : Config)
    (o : Observation) :
  ∃ h' rt' entry,
    checkFunc h cfg o rt = Done h' rt' ∧
    states h' !! config.Name cfg = Some entry ∧
    heap rt' !! length (heap rt) = Some entry ∧
    started_by rt rt' =
      notifications rt rt'
      ++ match config.OnComplete cfg with
         | Some f => [go_OnComplete f (length (heap rt))]
         | None => []
         end.
Proof.
  eexists _, _, _. split; [apply checkFunc_Done|]. simpl.
  split; [apply lookup_insert_eq|]. split; [apply heap_lookup_new|].
  unfold notifications, started_by. simpl. rewrite drop_app_length.
  rewrite filter_app, filter_completed, app_nil_r. f_equal.
  unfold announced.
  by destruct (Monitor_StatusListener h), (isFailure (candidate cfg o)),
    (isFailure (default zero_State (states h !! config.Name cfg))).
Qed.

(** X16: [State()] after a probe.  [State()] never returns an error and
    returns the store as it is; after a probe invocation of a check it
    holds that probe's entry under the check's name, with the check's
    name, the probe's payload and [CheckTime], and for every other
    name what it held before. *)
Theorem State_after_probe (h : Monitor) (rt : Runtime) (cfg : Config)
    (o : Observation) :
  ∃ h' rt' entry,
    checkFunc h cfg o rt = Done h' rt' ∧
    Monitor_State h' = (<[config.Name cfg := entry]> (states h), None) ∧
    Monitor_State h = (states h, None) ∧
    Name entry = config.Name cfg ∧
    Details entry = data o ∧
    CheckTime entry = checkTime o ∧
    ∀ other, other ≠ config.Name cfg →
      (Monitor_State h').1 !! other = (Monitor_State h).1 !! other.
Proof.
  eexists _, _, _. split; [apply checkFunc_Done|].
  unfold Monitor_State. rewrite !safeGetStates_eq. simpl.
  rewrite detected_candidate.
  repeat split; try by destruct (err o).
  intros other Hne. by rewrite lookup_insert_ne.
Qed.

(* ================================================================== *)
(** ** RemoveCheck, all cases *)

(** X17: [RemoveCheck(cfg)] where it removes, in a monitor that a
    history from [New()] has produced.  If no registered descriptor
    has the name of [cfg], it returns the not-found error and nothing
    changes.  Otherwise let [existing] be the first registered
    descriptor of that name.  In a monitor that is not started,
    exactly [existing] is removed from the registry (a later
    descriptor of the same name stays) and nothing else changes.  In a
    started monitor with a runner under the name, that lane is stopped
    as by [StopCheck] (channel closed, runner and stored state
    deleted) and exactly [existing] is removed. *)
Theorem RemoveCheck_removes_first (h : Monitor) (rt : Runtime)
    (cfg : Config) :
  reachable h rt →
  ((∀ existing, existing ∈ configs h →
      config.Name cfg ≠ config.Name existing) →
   RemoveCheck h cfg rt =
     Done (h, Some ("no check found with name " +:+ config.Name cfg)) rt)
  ∧
  (∀ pre existing post,
     configs h = pre ++ existing :: post →
     (∀ e, e ∈ pre → config.Name cfg ≠ config.Name e) →
     config.Name cfg = config.Name existing →
     (started h = false →
      RemoveCheck h cfg rt = Done (set_configs (pre ++ post) h, None) rt)
     ∧
     (started h = true → ∀ stop,
      runners h !! config.Name cfg = Some stop →
      RemoveCheck h cfg rt =
        Done (set_configs (pre ++ post)
                (set_states (delete (config.Name cfg) (states h))
                   (set_runners (delete (config.Name cfg) (runners h)) h)),
              None)
             {| chans := <[stop := true]> (chans rt); heap := heap rt;
                spawned := spawned rt |})).
Proof.
  intros [Hopen _]%reachable_lanes_ok. split.
  - apply RemoveCheck_not_found.
  - intros pre existing post Hcfg Hpre Hname. split.
    + by apply RemoveCheck_not_started with existing.
    + intros Hs stop Hrun.
      apply RemoveCheck_running with existing; try done. by eapply Hopen.
Qed.

(* ================================================================== *)
(** ** Which channels get closed *)

Lemma close_range_others (l : list (string * chan)) (rt rt' : Runtime) :
  for_range (λ (_ : unit) (kv : string * chan), close kv.2) tt l rt
    = Done tt rt' →
  ∀ c, c ∉ l.*2 → chans rt' !! c = chans rt !! c.
Proof.
  revert rt. induction l as [|[k c] l IH]; intros rt; simpl.
  - by intros [= <-].
  - unfold mbind, Go_bind. rewrite close_unfold.
    destruct (chans rt !! c) as [[]|]; [done| |done].
    intros Hrun c' [Hne Hc']%not_elem_of_cons.
    rewrite (IH _ Hrun c' Hc'). simpl. by rewrite list_lookup_insert_ne.
Qed.

(** X18: only runners are signalled.  If a step of a history (a method
    call or a probe invocation) closes a channel, that channel was the
    runner of some name before the step, and that name has no runner,
    or another channel as runner, after it.  In particular a probe
    invocation closes no channel, and a channel that is open and is no
    runner stays open. *)
Theorem only_runners_are_closed (h h' : Monitor) (rt rt' : Runtime)
    (e : event) (c : chan) :
  step h e rt = Done h' rt' →
  chans rt !! c = Some false →
  chans rt' !! c = Some true →
  ∃ name, runners h !! name = Some c ∧ runners h' !! name ≠ Some c.
Proof.
  intros Hstep Hopen Hclosed.
  assert (Hsame : ∀ rt0 : Runtime, chans rt0 !! c = Some false →
            chans rt0 !! c = Some true → False) by (intros; congruence).
  assert (Hstop : ∀ name h1 e1 rt1,
    StopCheck h name rt = Done (h1, e1) rt1 →
    chans rt1 !! c = Some true →
    runners h !! name = Some c ∧ runners h1 !! name = None).
  { intros name h1 e1 rt1
      [(stop & Hrun & _ & -> & -> & ->)|(_ & _ & -> & ->)]%StopCheck_Done_inv;
      simpl; intros Hc; [|by destruct (Hsame rt)].
    destruct (decide (stop = c)) as [->|Hne].
    - split; [done|]. apply lookup_delete_eq.
    - rewrite list_lookup_insert_ne in Hc by done. by destruct (Hsame rt). }
  destruct e as [m|cfg o]; simpl in Hstep.
  2:{ rewrite checkFunc_Done in Hstep. injection Hstep as <- <-.
      by destruct (Hsame rt). }
  unfold mbind, Go_bind in Hstep.
  destruct (invoke h m rt) as [[h2 e2] rt2|] eqn:Hm; [|done].
  injection Hstep as -> ->.
  destruct m as [cfg|cfg| |name|name| | |l]; simpl in Hm.
  - injection Hm as _ <-. by destruct (Hsame rt).
  - unfold RemoveCheck in Hm. revert Hm. generalize 0%nat.
    induction (configs h) as [|existing rest IH]; intros idx; simpl.
    + intros [= <- <- <-]. by destruct (Hsame rt).
    + case_decide; [|apply IH]. destruct (started h).
      * unfold mbind, Go_bind.
        destruct (StopCheck h (config.Name cfg) rt) as [[h1 e1] rt1|] eqn:Hs;
          [|done].
        destruct e1; intros [= <- <- <-];
          destruct (Hstop _ _ _ _ Hs Hclosed) as [Hrun Hgone];
          exists (config.Name cfg); simpl; by rewrite ?Hgone.
      * intros [= <- <- <-]. by destruct (Hsame rt).
  - destruct (started h) eqn:Hs.
    + unfold Start in Hm. rewrite Hs in Hm. injection Hm as <- _ <-.
      by destruct (Hsame rt).
    + destruct (Start_Done h rt Hs) as (h1 & rt1 & Hrun & _ & _ & _ & _ & _
                                         & Hch & _).
      rewrite Hrun in Hm. injection Hm as <- _ <-.
      rewrite Hch, (lookup_app_l_Some _ _ _ _ Hopen) in Hclosed. done.
  - unfold StartCheck in Hm. destruct (StartCheck_found _ _ _) as [found|];
      [|injection Hm as <- _ <-; by destruct (Hsame rt)].
    destruct (runners h !! name);
      [injection Hm as <- _ <-; by destruct (Hsame rt)|].
    unfold mbind, Go_bind in Hm. rewrite startRunnerForConfig_Done in Hm.
    injection Hm as <- _ <-. simpl in Hclosed.
    rewrite (lookup_app_l_Some _ _ _ _ Hopen) in Hclosed. done.
  - destruct (Hstop _ _ _ _ Hm Hclosed) as [Hrun Hgone].
    exists name. by rewrite Hgone.
  - unfold Stop, mbind, Go_bind in Hm.
    destruct (for_range _ tt _ rt) as [[] rt1|] eqn:Hclose; [|done].
    injection Hm as <- _ <-. simpl.
    destruct (decide (c ∈ (map_to_list (runners h)).*2)) as [Hin|Hout].
    + apply list_elem_of_fmap in Hin as ([name c'] & -> & Hin).
      apply elem_of_map_to_list in Hin. exists name. by rewrite lookup_empty.
    + rewrite (close_range_others _ _ _ Hclose c Hout) in Hclosed.
      by destruct (Hsame rt).
  - injection Hm as <- _ <-. by destruct (Hsame rt).
  - injection Hm as <- _ <-. by destruct (Hsame rt).
Qed.

(* ================================================================== *)
(** ** The HTTP check: configuration *)

(** X19: [NewHTTP] fails exactly for a nil config and for a config with
    a nil URL.  When it fails it returns no check, the error names the
    cause, and no client object has been touched; when it succeeds it
    returns a check and no error. *)
Theorem NewHTTP_fails_iff (cfg : option checks.HTTPConfig)
    (clients : list http.Client) :
  (cfg = None →
   checks.NewHTTP cfg clients =
     (None, Some "passed in config cannot be nil", clients))
  ∧
  (∀ c, cfg = Some c → checks.URL c = None →
   checks.NewHTTP cfg clients =
     (None, Some "unable to prepare given config: URL cannot be nil",
      clients))
  ∧
  (∀ c u, cfg = Some c → checks.URL c = Some u →
   ∃ check clients',
     checks.NewHTTP cfg clients = (Some check, None, clients')).
Proof.
  split; [|split].
  - by intros ->.
  - intros c -> Hurl. unfold checks.NewHTTP, checks.prepare. by rewrite Hurl.
  - intros c u -> Hurl. unfold checks.NewHTTP, checks.prepare. rewrite Hurl.
    cbv zeta. destruct (checks.Client _); eauto.
Qed.

(** X20: what [NewHTTP] makes of a config with a URL.  The check's
    config keeps the URL; its expected status code is the given one,
    or 200 if that was 0; its timeout is the given one, or 3 seconds
    if that was 0; so neither is 0.  Its client is never nil and has
    the config's timeout as its [Timeout].  A client passed in is used
    as it is, with its [Timeout] overwritten in place and its other
    fields and all other clients untouched; with no client passed in,
    a new one is made that has only the [Timeout] set. *)
Theorem NewHTTP_prepares (c : checks.HTTPConfig) (u : string)
    (clients : list http.Client) :
  checks.URL c = Some u →
  (∀ p, checks.Client c = Some p → is_Some (clients !! p)) →
  ∃ check clients' p client,
    checks.NewHTTP (Some c) clients = (Some check, None, clients') ∧
    checks.URL (checks.Config check) = Some u ∧
    checks.StatusCode (checks.Config check) =
      (if decide (checks.StatusCode c = 0) then 200
       else checks.StatusCode c) ∧
    checks.Timeout (checks.Config check) =
      (if decide (checks.Timeout c = 0) then 3000000000
       else checks.Timeout c) ∧
    checks.StatusCode (checks.Config check) ≠ 0 ∧
    checks.Timeout (checks.Config check) ≠ 0 ∧
    checks.Client (checks.Config check) = Some p ∧
    clients' !! p = Some client ∧
    http.Timeout client = checks.Timeout (checks.Config check) ∧
    (∀ q, q ≠ p → q ≠ length clients → clients' !! q = clients !! q) ∧
    match checks.Client c with
    | Some p0 =>
        p = p0 ∧ length clients' = length clients ∧
        ∃ old, clients !! p = Some old ∧
          client = http.set_Timeout (http.Timeout client) old
    | None =>
        p = length clients ∧
        clients' = clients ++ [client] ∧
        http.Transport client = None ∧ http.CheckRedirect client = None ∧
        http.Jar client = None
    end.
Proof.
  intros Hurl Hvalid. unfold checks.NewHTTP, checks.prepare. rewrite Hurl.
  cbv zeta.
  set (c1 := if decide (checks.StatusCode c = 0)
             then checks.set_StatusCode http.StatusOK c else c).
  set (c2 := if decide (checks.Timeout c1 = 0)
             then checks.set_Timeout checks.defaultHTTPTimeout c1 else c1).
  assert (checks.URL c2 = Some u ∧ checks.Client c2 = checks.Client c ∧
          checks.StatusCode c2 =
            (if decide (checks.StatusCode c = 0) then 200
             else checks.StatusCode c) ∧
          checks.Timeout c2 =
            (if decide (checks.Timeout c = 0) then 3000000000
             else checks.Timeout c)) as (Hu2 & Hc2 & Hs2 & Ht2).
  { subst c1 c2. by repeat case_decide. }
  assert (checks.StatusCode c2 ≠ 0) as Hs0
    by (rewrite Hs2; destruct (decide (checks.StatusCode c = 0)); lia).
  assert (checks.Timeout c2 ≠ 0) as Ht0
    by (rewrite Ht2; destruct (decide (checks.Timeout c = 0)); lia).
  rewrite Hc2. destruct (checks.Client c) as [p0|] eqn:Hclient.
  - destruct (Hvalid p0 eq_refl) as [old Hold].
    eexists _, _, p0, (http.set_Timeout (checks.Timeout c2) old).
    split; [reflexivity|]. simpl. rewrite Hc2.
    repeat split; try done.
    + by rewrite list_lookup_alter_eq, Hold.
    + intros q Hq _. by rewrite list_lookup_alter_ne.
    + by rewrite length_alter.
    + by exists old.
  - eexists _, _, (length clients), _. split; [reflexivity|]. simpl.
    repeat split; try done.
    + apply heap_lookup_new.
    + intros q _ Hq. destruct (decide (q < length clients)%nat).
      * by rewrite lookup_app_l.
      * rewrite !lookup_ge_None_2; [done|lia|]. rewrite length_app. simpl. lia.
Qed.

(** X21: [prepare] is idempotent: preparing a config that [prepare] has
    already prepared changes neither the config nor any client. *)
Theorem prepare_idempotent (c c' : checks.HTTPConfig)
    (clients clients' : list http.Client) :
  checks.prepare c clients = (c', None, clients') →
  checks.prepare c' clients' = (c', None, clients').
Proof.
  unfold checks.prepare.
  destruct (checks.URL c) as [u|] eqn:Hurl; [|intros [=]]. cbv zeta.
  set (c1 := if decide (checks.StatusCode c = 0)
             then checks.set_StatusCode http.StatusOK c else c).
  set (c2 := if decide (checks.Timeout c1 = 0)
             then checks.set_Timeout checks.defaultHTTPTimeout c1 else c1).
  assert (checks.URL c2 = Some u ∧ checks.StatusCode c2 ≠ 0
          ∧ checks.Timeout c2 ≠ 0) as (Hu2 & Hs2 & Ht2).
  { subst c1 c2. by repeat case_decide. }
  destruct (checks.Client c2) as [p|] eqn:Hclient; intros [= <- <-].
  - rewrite Hu2.
    destruct (decide (checks.StatusCode c2 = 0)) as [?|_]; [done|].
    destruct (decide (checks.Timeout c2 = 0)) as [?|_]; [done|].
    rewrite Hclient. f_equal.
    rewrite list_alter_alter_eq. apply list_alter_ext; [|done].
    by intros [].
  - simpl. rewrite Hu2.
    destruct (decide (checks.StatusCode c2 = 0)) as [?|_]; [done|]. simpl.
    destruct (decide (checks.Timeout c2 = 0)) as [?|_]; [done|]. simpl.
    f_equal. rewrite alter_app_r_alt by lia.
    by replace (length clients - length clients)%nat with 0%nat by lia.
Qed.

(* ================================================================== *)
(** ** The HTTP check: Status *)

(** X22: what [Status()] returns, for a check with a URL and a client
    (as [NewHTTP] makes them).  It returns no error exactly when the
    request could be built, the client got a response, and the
    response's status code is the expected one; the payload is then
    the time from the start of the call to its end, and otherwise the
    payload is nil.  A failing round trip and a wrong status code give
    the errors with those texts.  If [http.NewRequest] gives no
    request, [Status()] does not return: it panics on the nil
    request. *)
Theorem Status_cases (check : checks.HTTP) (x : checks.Exchange)
    (u : string) (p : nat) :
  checks.URL (checks.Config check) = Some u →
  checks.Client (checks.Config check) = Some p →
  (∀ e, checks.request x = (false, e) →
     checks.Status check x = checks.Panics checks.nil_dereference)
  ∧
  (∀ msg, checks.request x = (true, None) →
     checks.response x = inl msg →
     checks.Status check x =
       checks.Returns
         (any_nil, Some ("errors during check request: " +:+ msg)))
  ∧
  (∀ code, checks.request x = (true, None) →
     checks.response x = inr code →
     code ≠ checks.StatusCode (checks.Config check) →
     checks.Status check x =
       checks.Returns
         (any_nil,
          Some ("received status code '" +:+ pretty code
                  +:+ "' does not match expected status code '"
                  +:+ pretty (checks.StatusCode (checks.Config check))
                  +:+ "'")))
  ∧
  (∀ d, checks.Status check x = checks.Returns (d, None) ↔
     checks.request x = (true, None) ∧
     checks.response x = inr (checks.StatusCode (checks.Config check)) ∧
     d = any_Duration (Sub (checks.finish x) (checks.start x))).
Proof.
  intros Hurl Hclient. unfold checks.Status, checks.do.
  rewrite Hurl, Hclient.
  split; [|split; [|split]].
  - by intros e ->.
  - by intros msg -> ->.
  - intros code -> -> Hne. simpl. by rewrite decide_True.
  - intros d. destruct (checks.request x) as [[] [e|]]; simpl;
      try (split; [done | by intros [[=] _]]).
    destruct (checks.response x) as [msg|code]; simpl.
    { split; [done | by intros (_ & [=] & _)]. }
    case_decide as Hcode.
    + split; [done|]. intros (_ & [= ->] & _). done.
    + subst code. split.
      * by intros [= <-].
      * by intros (_ & _ & ->).
Qed.

(** X23: an HTTP check in a lane.  For a check with a URL and a client
    whose request could be built, the result of [Status()], handed to
    the lane's probe invocation, is stored as follows: a response with
    the expected status code as ["ok"], with empty error text and the
    duration of the call as details; a response with another status
    code, or a failed round trip, as ["failed"], with the error's text
    and nil details. *)
Theorem HTTP_check_recorded (h : Monitor) (rt : Runtime) (cfg : Config)
    (check : checks.HTTP) (x : checks.Exchange) (u : string) (p : nat)
    (t t' : Time) :
  checks.URL (checks.Config check) = Some u →
  checks.Client (checks.Config check) = Some p →
  checks.request x = (true, None) →
  ∃ d e h' rt' entry,
    checks.Status check x = checks.Returns (d, e) ∧
    checkFunc h cfg
      {| data := d; err := e; checkTime := t; detectTime := t' |} rt
      = Done h' rt' ∧
    states h' !! config.Name cfg = Some entry ∧
    match checks.response x with
    | inl msg =>
        Status entry = "failed" ∧ Details entry = any_nil ∧
        Err entry = "errors during check request: " +:+ msg
    | inr code =>
        if decide (code = checks.StatusCode (checks.Config check)) then
          Status entry = "ok" ∧ Err entry = "" ∧
          Details entry =
            any_Duration (Sub (checks.finish x) (checks.start x))
        else
          Status entry = "failed" ∧ Details entry = any_nil ∧
          Err entry =
            "received status code '" +:+ pretty code
              +:+ "' does not match expected status code '"
              +:+ pretty (checks.StatusCode (checks.Config check)) +:+ "'"
    end.
Proof.
  intros Hurl Hclient Hreq.
  assert (∃ d e, checks.Status check x = checks.Returns (d, e) ∧
    match checks.response x with
    | inl msg => d = any_nil ∧
        e = Some ("errors during check request: " +:+ msg)
    | inr code =>
        if decide (code = checks.StatusCode (checks.Config check)) then
          d = any_Duration (Sub (checks.finish x) (checks.start x))
          ∧ e = None
        else d = any_nil ∧
          e = Some ("received status code '" +:+ pretty code
              +:+ "' does not match expected status code '"
              +:+ pretty (checks.StatusCode (checks.Config check)) +:+ "'")
    end) as (d & e & Hstatus & Hcase).
  { unfold checks.Status, checks.do. rewrite Hurl, Hclient, Hreq. simpl.
    destruct (checks.response x) as [msg|code]; simpl; [by eexists _, _|].
    destruct (decide (code = _)) as [->|Hne].
    - rewrite decide_False by (by intros []). by eexists _, _.
    - rewrite decide_True by done. by eexists _, _. }
  exists d, e. eexists _, _, _. split; [exact Hstatus|].
  split; [apply checkFunc_Done|]. simpl.
  split; [apply lookup_insert_eq|]. rewrite detected_candidate. simpl.
  destruct (checks.response x) as [msg|code].
  - by destruct Hcase as [-> ->].
  - destruct (decide (code = _)); by destruct Hcase as [-> ->].
Qed.

(* ================================================================== *)
(** ** The mock checker in a lane *)

(** Probes that pass, of a check that is not failing: nothing is
    reported. *)
Lemma ok_run (cfg : Config) (os : list Observation) :
  ∀ (h : Monitor) (rt : Runtime),
    (∀ prevState, states h !! config.Name cfg = Some prevState →
       isFailure prevState = false) →
    Forall (λ o, err o = None) os →
    ∃ h' rt' gs,
      run h (Probe cfg <$> os) rt = Done h' rt' ∧
      Monitor_StatusListener h' = Monitor_StatusListener h ∧
      (∀ prevState, states h' !! config.Name cfg = Some prevState →
         isFailure prevState = false) ∧
      length (heap rt') = (length (heap rt) + length os)%nat ∧
      spawned rt' = spawned rt ++ gs ∧
      filter (λ g, is_notification g) gs = [].
Proof.
  induction os as [|o os IH]; intros h rt Hprev Hos.
  - exists h, rt, []. simpl. by rewrite Nat.add_0_r, app_nil_r.
  - apply Forall_cons in Hos as [Hok Hos].
    pose proof (checkFunc_Done h cfg o rt) as Hstep. cbv zeta in Hstep.
    assert (isFailure (default zero_State (states h !! config.Name cfg))
            = false) as Hnf.
    { destruct (states h !! config.Name cfg) as [p|]; [by apply Hprev|done]. }
    rewrite detected_candidate, Hok in Hstep. unfold announced in Hstep.
    rewrite isFailure_candidate, Hok, Hnf in Hstep. simpl in Hstep.
    match type of Hstep with _ = Done ?h1 ?rt1 =>
      destruct (IH h1 rt1) as (h' & rt' & gs & Hrun & Hl & Hprev' & Hlen
                                & Hsp & Hgs)
    end; [|done|].
    { simpl. intros p. rewrite lookup_insert_eq. by intros [= <-]. }
    exists h', rt'. eexists. split.
    { unfold run in *. simpl. unfold mbind, Go_bind. by rewrite Hstep. }
    simpl in *. split; [done|]. split; [done|]. split.
    { rewrite Hlen, length_app. simpl. lia. }
    split.
    { rewrite Hsp, <- app_assoc. reflexivity. }
    rewrite filter_app, filter_app, filter_completed, Hgs.
    by destruct (Monitor_StatusListener h).
Qed.

Lemma mock_lane_run (cfg : Config) (clock : list (Time * Time)) :
  ∀ (h : Monitor) (mc : mockChecker) (rt : Runtime),
    0 ≤ checks_done mc →
    checks_done mc + Z.of_nat (length clock) ≤ max_int64 →
    mock_lane h cfg mc clock rt =
      (h' ← run h (Probe cfg <$>
                     imap (λ i tt,
                             mock_observation (failAfter mc) (recoverAfter mc)
                               (checks_done mc + 1 + Z.of_nat i) tt) clock);
       mret (h', {| failAfter := failAfter mc;
                    checks_done := checks_done mc + Z.of_nat (length clock);
                    recoverAfter := recoverAfter mc |})) rt.
Proof.
  induction clock as [|[t t'] clock IH]; intros h mc rt H0 Hmax.
  - simpl. unfold mbind, mret, Go_bind, Go_ret. rewrite Z.add_0_r.
    by destruct mc.
  - rewrite length_cons, Nat2Z.inj_succ in Hmax |- *.
    cbn [mock_lane imap fmap list_fmap]. unfold mockChecker_Status.
    cbn [failAfter checks_done recoverAfter].
    rewrite add64_1 by lia. rewrite Z.add_0_r.
    unfold mock_observation at 1. cbn [fst snd].
    unfold run. cbn [for_range step]. unfold mbind, Go_bind.
    assert (Himap :
      imap (λ i tt, mock_observation (failAfter mc) (recoverAfter mc)
                      (checks_done mc + 1 + 1 + Z.of_nat i) tt) clock =
      imap ((λ i tt, mock_observation (failAfter mc) (recoverAfter mc)
                      (checks_done mc + 1 + Z.of_nat i) tt) ∘ S) clock).
    { apply imap_ext. intros i tt _. simpl. f_equal. lia. }
    assert (Hlen : checks_done mc + 1 + Z.of_nat (length clock)
                   = checks_done mc + Z.succ (Z.of_nat (length clock)))
      by lia.
    destruct (bool_decide (checks_done mc + 1 ≤ failAfter mc)
              || bool_decide (recoverAfter mc ≤ checks_done mc + 1));
      (destruct (checkFunc h cfg _ rt) as [h1 rt1|]; [|done]);
      rewrite IH by (simpl; lia); cbn [failAfter checks_done recoverAfter];
      rewrite Himap, Hlen; reflexivity.
Qed.

Lemma Forall_imap_lookup {A B} (P : B → Prop) (f : nat → A → B)
    (l : list A) :
  (∀ i x, l !! i = Some x → P (f i x)) → Forall P (imap f l).
Proof.
  intros H. apply Forall_lookup. intros i y. rewrite list_lookup_imap.
  destruct (l !! i) as [x|] eqn:Hx; [|done]. intros [= <-]. by apply H.
Qed.

Lemma mock_observation_ok (f r k : Z) (tt : Time * Time) :
  k ≤ f ∨ r ≤ k → err (mock_observation f r k tt) = None.
Proof.
  intros Hk. unfold mock_observation.
  destruct (bool_decide (k ≤ f) || bool_decide (r ≤ k)) eqn:Hb; [done|].
  apply orb_false_iff in Hb as [H1%bool_decide_eq_false_1
                                  H2%bool_decide_eq_false_1]. tauto.
Qed.

Lemma mock_observation_failed (f r k : Z) (tt : Time * Time) :
  f < k < r → err (mock_observation f r k tt) = Some "failure".
Proof.
  intros Hk. unfold mock_observation.
  rewrite (bool_decide_eq_false_2 (k ≤ f)) by lia.
  by rewrite (bool_decide_eq_false_2 (r ≤ k)) by lia.
Qed.

Lemma mock_observation_detectTime (f r k : Z) (tt : Time * Time) :
  detectTime (mock_observation f r k tt) = tt.2.
Proof.
  unfold mock_observation.
  by destruct (bool_decide (k ≤ f) || bool_decide (r ≤ k)).
Qed.

(** X24: the mock checker of the package's tests in a lane.  Take a
    mock that passes its first [failAfter] calls, fails from then on
    and passes again from call [recoverAfter] on, with at least one
    failing call in between, and a lane that probes it at least
    [recoverAfter] times (and fewer than [2^63] times), in a monitor
    that a history from [New()] has produced, with a listener, where
    the check is not failing.  Over the whole run the listener calls
    started are: one [CheckFailed], at the first failing call; one
    [StillFailing] at each further failing call, reporting [1], [2],
    ...; one [CheckRecovered] at call [recoverAfter], reporting the
    number of failing calls and the seconds between the detector's
    clock readings at the first failing call and at the recovery; and
    no others, however long the lane goes on.  With [failAfter = 0]
    and [recoverAfter = 5], as in [Test_StatusListenerCalled], these
    are 1, 3 and 1 calls. *)
Theorem mock_lane_reports_one_cycle (h : Monitor) (rt : Runtime)
    (cfg : Config) (l : StatusListener) (f r : Z)
    (pre mid post : list (Time * Time)) (t_fail t_ok : Time * Time) :
  reachable h rt →
  Monitor_StatusListener h = Some l →
  (∀ prevState, states h !! config.Name cfg = Some prevState →
     isFailure prevState = false) →
  f = Z.of_nat (length pre) →
  r = Z.of_nat (length pre + length (t_fail :: mid) + 1) →
  Z.of_nat (length (pre ++ t_fail :: mid ++ t_ok :: post)) ≤ max_int64 →
  ∃ h' mc' rt',
    mock_lane h cfg
      {| failAfter := f; checks_done := 0; recoverAfter := r |}
      (pre ++ t_fail :: mid ++ t_ok :: post) rt = Done (h', mc') rt' ∧
    checks_done mc' =
      Z.of_nat (length (pre ++ t_fail :: mid ++ t_ok :: post)) ∧
    notifications rt rt' =
      go_CheckFailed l (length (heap rt) + length pre)%nat
      :: imap (λ i _, go_StillFailing l
                        (length (heap rt) + length pre + 1 + i)%nat
                        (1 + Z.of_nat i)) mid
      ++ [go_CheckRecovered l
            (length (heap rt) + length pre + length (t_fail :: mid))%nat
            (Z.of_nat (length (t_fail :: mid)))
            (Seconds (Sub t_ok.2 t_fail.2))].
Proof.
  intros Hreach Hl Hprev Hf Hr Hmax.
  rewrite mock_lane_run by (simpl; lia).
  cbn [failAfter checks_done recoverAfter].
  set (g := λ (i : nat) (tt : Time * Time),
              mock_observation f r (0 + 1 + Z.of_nat i) tt).
  rewrite (imap_app g pre), imap_cons, (imap_app _ mid), imap_cons.
  rewrite !fmap_app, fmap_cons, fmap_app, fmap_cons.
  set (os1 := imap g pre).
  set (o_fail := (g ∘ Nat.add (length pre)) 0%nat t_fail).
  set (os_mid := imap ((g ∘ Nat.add (length pre)) ∘ S) mid).
  set (o_ok := (((g ∘ Nat.add (length pre)) ∘ S) ∘ Nat.add (length mid))
                 0%nat t_ok).
  set (os2 := imap ((((g ∘ Nat.add (length pre)) ∘ S)
                      ∘ Nat.add (length mid)) ∘ S) post).
  rewrite !length_app, !length_cons, !length_app, !length_cons in Hmax.
  simpl in Hr.
  assert (Forall (λ o, err o = None) os1) as Hos1.
  { apply Forall_imap_lookup. intros i tt Hi%lookup_lt_Some.
    apply mock_observation_ok. lia. }
  assert (Forall (λ o, is_Some (err o)) (o_fail :: os_mid)) as Hfails.
  { apply Forall_cons. split.
    - exists "failure". apply mock_observation_failed. lia.
    - apply Forall_imap_lookup. intros i tt Hi%lookup_lt_Some.
      exists "failure". apply mock_observation_failed. simpl. lia. }
  assert (err o_ok = None) as Hok.
  { apply mock_observation_ok. simpl. lia. }
  assert (Forall (λ o, err o = None) os2) as Hos2.
  { apply Forall_imap_lookup. intros i tt _.
    apply mock_observation_ok. simpl. lia. }
  assert (length os1 = length pre ∧ length os_mid = length mid)
    as [Hlen1 Hlenm] by (subst os1 os_mid; by rewrite !length_imap).
  destruct (ok_run cfg os1 h rt Hprev Hos1)
    as (h1 & rt1 & gs1 & Hrun1 & Hl1 & Hprev1 & Hheap1 & Hsp1 & Hgs1).
  pose proof (reachable_run _ _ _ _ _ Hreach Hrun1) as Hreach1.
  rewrite Hl in Hl1.
  destruct (cycle_run h1 rt1 cfg o_fail os_mid o_ok l Hreach1 Hl1 Hprev1
              Hfails) as (h2 & rt2 & s2 & gs2 & Hrun2 & Hl2 & Hs2 & Hst2 & _
                          & _ & Hheap2 & Hsp2 & Hgs2); [|done|].
  { rewrite length_cons, Hlenm. lia. }
  destruct (ok_run cfg os2 h2 rt2)
    as (h3 & rt3 & gs3 & Hrun3 & _ & _ & _ & Hsp3 & Hgs3); [|done|].
  { intros p. rewrite Hs2. intros [= <-]. unfold isFailure.
    rewrite Hst2. done. }
  eexists h3, _, rt3. split.
  { unfold mbind, Go_bind.
    replace ((Probe cfg <$> os1)
               ++ Probe cfg o_fail :: (Probe cfg <$> os_mid)
               ++ Probe cfg o_ok :: (Probe cfg <$> os2))
      with ((Probe cfg <$> os1)
              ++ (Probe cfg <$> (o_fail :: os_mid) ++ [o_ok])
              ++ (Probe cfg <$> os2)).
    2:{ rewrite fmap_app. simpl. by rewrite <- app_assoc. }
    rewrite run_app. unfold mbind, Go_bind.
    rewrite Hrun1. cbn beta iota. rewrite run_app. unfold mbind, Go_bind.
    rewrite Hrun2. cbn beta iota.
    rewrite Hrun3. reflexivity. }
  cbn [checks_done]. split.
  { rewrite !length_app, !length_cons, !length_app, !length_cons. lia. }
  unfold notifications, started_by.
  rewrite Hsp3, Hsp2, Hsp1, <- !app_assoc, drop_app_length.
  rewrite !filter_app, Hgs1, Hgs2, Hgs3, app_nil_r. simpl.
  rewrite Hheap1, Hlen1, Hlenm.
  subst o_ok o_fail os_mid. simpl. unfold g at 2 3.
  rewrite !mock_observation_detectTime. do 2 f_equal.
  apply list_eq. intros i. rewrite !list_lookup_imap.
  by destruct (mid !! i).
Qed.

(* ================================================================== *)
(** ** The properties at the scenarios *)

Lemma passing_a_not_failing (prevState : State) :
  states at_passing.1 !! config.Name check_a = Some prevState →
  isFailure prevState = false.
Proof.
  unfold at_passing. change (config.Name check_a) with "a".
  rewrite passing_history_a. by intros [= <-].
Qed.

Lemma distinct_batches_failing_history : distinct_batches failing_history.
Proof.
  intros cfg Hin.
  repeat (apply elem_of_cons in Hin as [Hin|Hin]; [try discriminate Hin|]).
  - injection Hin as ->. apply (bool_decide_unpack _). by vm_compute.
  - by apply elem_of_nil in Hin.
Qed.

(** [Start()] launches both lanes of the registered, not started
    monitor. *)
Lemma Start_at_registered :
  reachable at_registered.1 at_registered.2 ∧
  started at_registered.1 = false ∧
  ∃ h' rt',
    Start at_registered.1 at_registered.2 = Done (h', None) rt' ∧
    started h' = true ∧
    configs h' = configs at_registered.1 ∧
    states h' = states at_registered.1 ∧
    started_by at_registered.2 rt' =
      imap (λ i c, go_lane c (length (chans at_registered.2) + i)%nat)
        (configs at_registered.1) ∧
    (∀ c, c ∈ configs at_registered.1 →
       ∃ stop, runners h' !! config.Name c = Some stop
               ∧ chans rt' !! stop = Some false) ∧
    (∀ name, (∀ c, c ∈ configs at_registered.1 → config.Name c ≠ name) →
       runners h' !! name = runners at_registered.1 !! name).
Proof.
  assert (H1 : reachable at_registered.1 at_registered.2)
    by apply reachable_after.
  assert (H2 : started at_registered.1 = false) by (by vm_compute).
  exact (conj H1 (conj H2 (Start_launches_every_check _ _ H1 H2))).
Defined.

(** [Start()] twice on the registered, not started monitor. *)
Lemma Start_twice_at_registered :
  started at_registered.1 = false ∧
  ∃ h' rt',
    Start at_registered.1 at_registered.2 = Done (h', None) rt' ∧
    Start h' rt' = Done (h', Some "monitor already started") rt'.
Proof.
  assert (H1 : started at_registered.1 = false) by (by vm_compute).
  exact (conj H1 (Start_twice _ at_registered.2 H1)).
Defined.

(** [Stop()] then [Start()] with both checks running and [a]
    failing. *)
Lemma Stop_then_Start_at_failing :
  reachable at_failing.1 at_failing.2 ∧
  ∃ h1 rt1 h2 rt2,
    Stop at_failing.1 at_failing.2 = Done (h1, None) rt1 ∧
    Start h1 rt1 = Done (h2, None) rt2 ∧
    started h2 = true ∧
    configs h2 = configs at_failing.1 ∧
    states h2 = ∅ ∧
    ∀ c, c ∈ configs at_failing.1 →
      ∃ stop, runners h2 !! config.Name c = Some stop
              ∧ chans rt2 !! stop = Some false
              ∧ chans at_failing.2 !! stop = None.
Proof.
  assert (H1 : reachable at_failing.1 at_failing.2) by apply reachable_after.
  exact (conj H1 (Stop_then_Start_restarts _ _ H1)).
Defined.

(** The failing check [a], whose lane has channel 0, is restarted. *)
Lemma restart_a_at_failing :
  reachable at_failing.1 at_failing.2 ∧
  check_a ∈ configs at_failing.1 ∧
  runners at_failing.1 !! config.Name check_a = Some 0%nat ∧
  ∃ h1 rt1 h2 rt2,
    StopCheck at_failing.1 (config.Name check_a) at_failing.2
      = Done (h1, None) rt1 ∧
    StartCheck h1 (config.Name check_a) rt1 = Done (h2, None) rt2 ∧
    runners h2 !! config.Name check_a = Some (length (chans at_failing.2)) ∧
    length (chans at_failing.2) ≠ 0%nat ∧
    chans rt2 !! 0%nat = Some true ∧
    chans rt2 !! length (chans at_failing.2) = Some false ∧
    states h2 !! config.Name check_a = None ∧
    configs h2 = configs at_failing.1 ∧
    started h2 = started at_failing.1 ∧
    ∀ other, other ≠ config.Name check_a →
      states h2 !! other = states at_failing.1 !! other ∧
      runners h2 !! other = runners at_failing.1 !! other.
Proof.
  assert (H1 : reachable at_failing.1 at_failing.2) by apply reachable_after.
  assert (H2 : check_a ∈ configs at_failing.1)
    by (replace (configs at_failing.1) with [check_a; check_b]
          by (by vm_compute); set_solver).
  assert (H3 : runners at_failing.1 !! config.Name check_a = Some 0%nat)
    by (by vm_compute).
  exact (conj H1 (conj H2 (conj H3
    (StopCheck_then_StartCheck_restarts _ _ _ _ H1 H2 H3)))).
Defined.

(** [RemoveCheck(a)] after the lane of [a] was stopped returns
    [StopCheck]'s error; the refused call has left no trace. *)
Lemma refused_RemoveCheck_changes_nothing :
  invoke at_stopped_a.1 (m_RemoveCheck check_a) at_stopped_a.2
    = Done (at_refused.1, Some "failed to find check with name a")
        at_refused.2 ∧
  at_refused.1 = at_stopped_a.1 ∧ at_refused.2 = at_stopped_a.2.
Proof.
  assert (H1 : invoke at_stopped_a.1 (m_RemoveCheck check_a) at_stopped_a.2
               = Done (at_refused.1,
                       Some "failed to find check with name a")
                   at_refused.2) by (by vm_compute).
  exact (conj H1 (failed_call_changes_nothing _ _ _ _ _ _ H1)).
Defined.

(** [StopCheck("a")] with [a] failing deletes a state and writes
    none. *)
Lemma StopCheck_a_writes_no_state :
  invoke at_failing.1 (m_StopCheck "a") at_failing.2
    = Done (at_stopped_a.1, None) at_stopped_a.2 ∧
  (∀ name s, states at_stopped_a.1 !! name = Some s →
     states at_failing.1 !! name = Some s) ∧
  heap at_stopped_a.2 = heap at_failing.2 ∧
  Forall (λ g, is_lane g = true) (started_by at_failing.2 at_stopped_a.2) ∧
  notifications at_failing.2 at_stopped_a.2 = [].
Proof.
  assert (H1 : invoke at_failing.1 (m_StopCheck "a") at_failing.2
               = Done (at_stopped_a.1, None) at_stopped_a.2)
    by (by vm_compute).
  exact (conj H1 (methods_never_write_states _ _ _ _ _ _ H1)).
Defined.

(** The stored state of [a] after two failures. *)
Lemma failing_a_shape :
  reachable at_failing.1 at_failing.2 ∧
  states at_failing.1 !! "a" = Some failing_a ∧
  Name failing_a = "a" ∧
  (Status failing_a = "ok" ∧ Err failing_a = ""
     ∧ ContiguousFailures failing_a = 0
     ∧ TimeOfFirstFailure failing_a = zero_Time
   ∨ Status failing_a = "failed").
Proof.
  assert (H1 : reachable at_failing.1 at_failing.2) by apply reachable_after.
  assert (H2 : states at_failing.1 !! "a" = Some failing_a)
    by apply failing_history_a.
  exact (conj H1 (conj H2 (stored_state_shape _ _ _ _ H1 H2))).
Defined.

(** The registry after [failing_history], whose one batch is
    [a], [b]. *)
Lemma registry_at_failing :
  distinct_batches failing_history ∧
  run New failing_history Runtime0 = Done at_failing.1 at_failing.2 ∧
  NoDup (config.Name <$> configs at_failing.1).
Proof.
  assert (H1 : distinct_batches failing_history)
    by apply distinct_batches_failing_history.
  assert (H2 : run New failing_history Runtime0
               = Done at_failing.1 at_failing.2) by (by vm_compute).
  exact (conj H1 (conj H2 (registry_names_distinct _ _ _ H1 H2))).
Defined.

(** Three failures in a row of [a], which has passed once. *)
Lemma three_failures_of_a :
  reachable at_passing.1 at_passing.2 ∧
  Monitor_StatusListener at_passing.1 = Some 7%nat ∧
  (∀ prevState, states at_passing.1 !! config.Name check_a = Some prevState →
     isFailure prevState = false) ∧
  Forall (λ o, is_Some (err o))
    (first_failure :: more_failures) ∧
  Z.of_nat (length (first_failure :: more_failures))
    ≤ max_int64 ∧
  ∃ h' rt' s,
    run at_passing.1
      (Probe check_a <$> first_failure :: more_failures) at_passing.2
      = Done h' rt' ∧
    states h' !! config.Name check_a = Some s ∧
    Status s = "failed" ∧
    ContiguousFailures s =
      Z.of_nat (length (first_failure :: more_failures)) ∧
    TimeOfFirstFailure s = detectTime first_failure ∧
    notifications at_passing.2 rt' =
      go_CheckFailed 7%nat (length (heap at_passing.2))
      :: imap (λ i _, go_StillFailing 7%nat
                        (length (heap at_passing.2) + 1 + i)%nat
                        (1 + Z.of_nat i))
           more_failures.
Proof.
  assert (H1 : reachable at_passing.1 at_passing.2) by apply reachable_after.
  assert (H2 : Monitor_StatusListener at_passing.1 = Some 7%nat)
    by (by vm_compute).
  pose proof passing_a_not_failing as H3.
  assert (H4 : Forall (λ o, is_Some (err o))
                 (first_failure :: more_failures))
    by (repeat constructor; by eexists).
  assert (H5 : Z.of_nat (length (first_failure :: more_failures))
               ≤ max_int64) by (by vm_compute).
  exact (conj H1 (conj H2 (conj H3 (conj H4 (conj H5
    (failure_streak _ _ check_a _ _ _ H1 H2 H3 H4 H5)))))).
Defined.

(** ... and the recovery of [a] at 0.5s. *)
Lemma three_failures_of_a_and_recovery :
  reachable at_passing.1 at_passing.2 ∧
  Monitor_StatusListener at_passing.1 = Some 7%nat ∧
  (∀ prevState, states at_passing.1 !! config.Name check_a = Some prevState →
     isFailure prevState = false) ∧
  Forall (λ o, is_Some (err o))
    (first_failure :: more_failures) ∧
  Z.of_nat (length (first_failure :: more_failures))
    ≤ max_int64 ∧
  err (ok_at 500000000) = None ∧
  ∃ h' rt' s,
    run at_passing.1
      (Probe check_a <$> (first_failure :: more_failures)
         ++ [ok_at 500000000]) at_passing.2
      = Done h' rt' ∧
    states h' !! config.Name check_a = Some s ∧
    Status s = "ok" ∧
    ContiguousFailures s = 0 ∧
    TimeOfFirstFailure s = zero_Time ∧
    notifications at_passing.2 rt' =
      go_CheckFailed 7%nat (length (heap at_passing.2))
      :: imap (λ i _, go_StillFailing 7%nat
                        (length (heap at_passing.2) + 1 + i)%nat
                        (1 + Z.of_nat i))
           more_failures
      ++ [go_CheckRecovered 7%nat
            (length (heap at_passing.2)
             + length (first_failure :: more_failures))%nat
            (Z.of_nat (length (first_failure :: more_failures)))
            (Seconds (Sub (detectTime (ok_at 500000000))
                        (detectTime first_failure)))].
Proof.
  assert (H1 : reachable at_passing.1 at_passing.2) by apply reachable_after.
  assert (H2 : Monitor_StatusListener at_passing.1 = Some 7%nat)
    by (by vm_compute).
  pose proof passing_a_not_failing as H3.
  assert (H4 : Forall (λ o, is_Some (err o))
                 (first_failure :: more_failures))
    by (repeat constructor; by eexists).
  assert (H5 : Z.of_nat (length (first_failure :: more_failures))
               ≤ max_int64) by (by vm_compute).
  assert (H6 : err (ok_at 500000000) = None) by done.
  exact (conj H1 (conj H2 (conj H3 (conj H4 (conj H5 (conj H6
    (recovery_after_streak _ _ check_a _ _ _ _ H1 H2 H3 H4 H5 H6))))))).
Defined.

(** [a] passes again at 0.2s after having passed at 0.1s. *)
Lemma a_passes_again :
  (∀ prevState, states at_passing.1 !! config.Name check_a = Some prevState →
     isFailure prevState = false) ∧
  err (ok_at 200000000) = None ∧
  ∃ h' rt' entry,
    checkFunc at_passing.1 check_a (ok_at 200000000) at_passing.2
      = Done h' rt' ∧
    states h' !! config.Name check_a = Some entry ∧
    Status entry = "ok" ∧
    ContiguousFailures entry = 0 ∧
    CheckTime entry = checkTime (ok_at 200000000) ∧
    Details entry = data (ok_at 200000000) ∧
    notifications at_passing.2 rt' = [].
Proof.
  pose proof passing_a_not_failing as H1.
  assert (H2 : err (ok_at 200000000) = None) by done.
  exact (conj H1 (conj H2 (ok_after_ok_is_silent _ at_passing.2 _ _ H1 H2))).
Defined.

(** [RemoveCheck(a)] in the started monitor with both lanes running. *)
Lemma RemoveCheck_a_at_started :
  reachable at_started.1 at_started.2 ∧
  ((∀ existing, existing ∈ configs at_started.1 →
      config.Name check_a ≠ config.Name existing) →
   RemoveCheck at_started.1 check_a at_started.2 =
     Done (at_started.1,
           Some ("no check found with name " +:+ config.Name check_a))
       at_started.2)
  ∧
  (∀ pre existing post,
     configs at_started.1 = pre ++ existing :: post →
     (∀ e, e ∈ pre → config.Name check_a ≠ config.Name e) →
     config.Name check_a = config.Name existing →
     (started at_started.1 = false →
      RemoveCheck at_started.1 check_a at_started.2 =
        Done (set_configs (pre ++ post) at_started.1, None) at_started.2)
     ∧
     (started at_started.1 = true → ∀ stop,
      runners at_started.1 !! config.Name check_a = Some stop →
      RemoveCheck at_started.1 check_a at_started.2 =
        Done (set_configs (pre ++ post)
                (set_states (delete (config.Name check_a)
                               (states at_started.1))
                   (set_runners (delete (config.Name check_a)
                                   (runners at_started.1)) at_started.1)),
              None)
             {| chans := <[stop := true]> (chans at_started.2);
                heap := heap at_started.2;
                spawned := spawned at_started.2 |})).
Proof.
  assert (H1 : reachable at_started.1 at_started.2) by apply reachable_after.
  exact (conj H1 (RemoveCheck_removes_first _ _ check_a H1)).
Defined.

(** [StopCheck("a")] closes channel 0, the runner of [a]. *)
Lemma StopCheck_a_closes_its_runner :
  step at_failing.1 (Call (m_StopCheck "a")) at_failing.2
    = Done at_stopped_a.1 at_stopped_a.2 ∧
  chans at_failing.2 !! 0%nat = Some false ∧
  chans at_stopped_a.2 !! 0%nat = Some true ∧
  ∃ name, runners at_failing.1 !! name = Some 0%nat
          ∧ runners at_stopped_a.1 !! name ≠ Some 0%nat.
Proof.
  assert (H1 : step at_failing.1 (Call (m_StopCheck "a")) at_failing.2
               = Done at_stopped_a.1 at_stopped_a.2) by (by vm_compute).
  assert (H2 : chans at_failing.2 !! 0%nat = Some false) by (by vm_compute).
  assert (H3 : chans at_stopped_a.2 !! 0%nat = Some true) by (by vm_compute).
  exact (conj H1 (conj H2 (conj H3
    (only_runners_are_closed _ _ _ _ _ _ H1 H2 H3)))).
Defined.

(** [NewHTTP] on a config that gives only the URL. *)
Lemma NewHTTP_local_config :
  checks.URL local_config = Some "http://localhost:8080/health" ∧
  (∀ p, checks.Client local_config = Some p → is_Some (@nil http.Client !! p))
  ∧
  ∃ check clients' p client,
    checks.NewHTTP (Some local_config) [] = (Some check, None, clients') ∧
    checks.URL (checks.Config check) = Some "http://localhost:8080/health" ∧
    checks.StatusCode (checks.Config check) =
      (if decide (checks.StatusCode local_config = 0) then 200
       else checks.StatusCode local_config) ∧
    checks.Timeout (checks.Config check) =
      (if decide (checks.Timeout local_config = 0) then 3000000000
       else checks.Timeout local_config) ∧
    checks.StatusCode (checks.Config check) ≠ 0 ∧
    checks.Timeout (checks.Config check) ≠ 0 ∧
    checks.Client (checks.Config check) = Some p ∧
    clients' !! p = Some client ∧
    http.Timeout client = checks.Timeout (checks.Config check) ∧
    (∀ q, q ≠ p → q ≠ length (@nil http.Client) →
       clients' !! q = @nil http.Client !! q) ∧
    match checks.Client local_config with
    | Some p0 =>
        p = p0 ∧ length clients' = length (@nil http.Client) ∧
        ∃ old, @nil http.Client !! p = Some old ∧
          client = http.set_Timeout (http.Timeout client) old
    | None =>
        p = length (@nil http.Client) ∧
        clients' = [] ++ [client] ∧
        http.Transport client = None ∧ http.CheckRedirect client = None ∧
        http.Jar client = None
    end.
Proof.
  assert (H1 : checks.URL local_config = Some "http://localhost:8080/health")
    by done.
  assert (H2 : ∀ p, checks.Client local_config = Some p →
                 is_Some (@nil http.Client !! p))
    by (intros p H; discriminate H).
  exact (conj H1 (conj H2 (NewHTTP_prepares _ _ _ H1 H2))).
Defined.

(** [prepare] on the config that [prepare] made of [local_config]. *)
Lemma prepare_local_config_twice :
  checks.prepare local_config [] = (local_prepared, None, [local_client]) ∧
  checks.prepare local_prepared [local_client]
    = (local_prepared, None, [local_client]).
Proof.
  assert (H1 : checks.prepare local_config []
               = (local_prepared, None, [local_client])) by done.
  exact (conj H1 (prepare_idempotent _ _ _ _ H1)).
Defined.

(** [Status()] of the local check. *)
Lemma Status_of_local_check :
  checks.URL (checks.Config local_check)
    = Some "http://localhost:8080/health" ∧
  checks.Client (checks.Config local_check) = Some 0%nat ∧
  (∀ e, checks.request unavailable = (false, e) →
     checks.Status local_check unavailable
       = checks.Panics checks.nil_dereference)
  ∧
  (∀ msg, checks.request unavailable = (true, None) →
     checks.response unavailable = inl msg →
     checks.Status local_check unavailable =
       checks.Returns
         (any_nil, Some ("errors during check request: " +:+ msg)))
  ∧
  (∀ code, checks.request unavailable = (true, None) →
     checks.response unavailable = inr code →
     code ≠ checks.StatusCode (checks.Config local_check) →
     checks.Status local_check unavailable =
       checks.Returns
         (any_nil,
          Some ("received status code '" +:+ pretty code
                  +:+ "' does not match expected status code '"
                  +:+ pretty (checks.StatusCode (checks.Config local_check))
                  +:+ "'")))
  ∧
  (∀ d, checks.Status local_check unavailable = checks.Returns (d, None) ↔
     checks.request unavailable = (true, None) ∧
     checks.response unavailable
       = inr (checks.StatusCode (checks.Config local_check)) ∧
     d = any_Duration (Sub (checks.finish unavailable)
                         (checks.start unavailable))).
Proof.
  assert (H1 : checks.URL (checks.Config local_check)
               = Some "http://localhost:8080/health") by done.
  assert (H2 : checks.Client (checks.Config local_check) = Some 0%nat)
    by done.
  exact (conj H1 (conj H2 (Status_cases _ unavailable _ _ H1 H2))).
Defined.

(** The local check answers 503 in the lane of [a]. *)
Lemma local_check_unavailable_recorded :
  checks.URL (checks.Config local_check)
    = Some "http://localhost:8080/health" ∧
  checks.Client (checks.Config local_check) = Some 0%nat ∧
  checks.request unavailable = (true, None) ∧
  ∃ d e h' rt' entry,
    checks.Status local_check unavailable = checks.Returns (d, e) ∧
    checkFunc at_passing.1 check_a
      {| data := d; err := e; checkTime := 200000000;
         detectTime := 200001000 |} at_passing.2
      = Done h' rt' ∧
    states h' !! config.Name check_a = Some entry ∧
    match checks.response unavailable with
    | inl msg =>
        Status entry = "failed" ∧ Details entry = any_nil ∧
        Err entry = "errors during check request: " +:+ msg
    | inr code =>
        if decide (code = checks.StatusCode (checks.Config local_check)) then
          Status entry = "ok" ∧ Err entry = "" ∧
          Details entry =
            any_Duration (Sub (checks.finish unavailable)
                            (checks.start unavailable))
        else
          Status entry = "failed" ∧ Details entry = any_nil ∧
          Err entry =
            "received status code '" +:+ pretty code
              +:+ "' does not match expected status code '"
              +:+ pretty (checks.StatusCode (checks.Config local_check))
              +:+ "'"
    end.
Proof.
  assert (H1 : checks.URL (checks.Config local_check)
               = Some "http://localhost:8080/health") by done.
  assert (H2 : checks.Client (checks.Config local_check) = Some 0%nat)
    by done.
  assert (H3 : checks.request unavailable = (true, None)) by done.
  exact (conj H1 (conj H2 (conj H3
    (HTTP_check_recorded at_passing.1 at_passing.2 check_a _ _ _ _
       200000000 200001000 H1 H2 H3)))).
Defined.

Lemma started_a_not_failing (prevState : State) :
  states at_started.1 !! config.Name check_a = Some prevState →
  isFailure prevState = false.
Proof. intros H. vm_compute in H. discriminate H. Qed.

(** The mock of [Test_StatusListenerCalled], [failAfter: 0] and
    [recoverAfter: 5], in the lane of [a] for two seconds: one
    [CheckFailed], three [StillFailing], one [CheckRecovered]. *)
Lemma mock_lane_as_in_the_test :
  reachable at_started.1 at_started.2 ∧
  Monitor_StatusListener at_started.1 = Some 7%nat ∧
  (∀ prevState, states at_started.1 !! config.Name check_a = Some prevState →
     isFailure prevState = false) ∧
  0 = Z.of_nat (length (@nil (Time * Time))) ∧
  5 = Z.of_nat (length (@nil (Time * Time))
                + length ((0, 1000) :: ticks 100000000 3) + 1) ∧
  Z.of_nat (length ([] ++ (0, 1000) :: ticks 100000000 3
                       ++ (400000000, 400001000) :: ticks 500000000 15))
    ≤ max_int64 ∧
  ∃ h' mc' rt',
    mock_lane at_started.1 check_a
      {| failAfter := 0; checks_done := 0; recoverAfter := 5 |}
      ([] ++ (0, 1000) :: ticks 100000000 3
          ++ (400000000, 400001000) :: ticks 500000000 15) at_started.2
      = Done (h', mc') rt' ∧
    checks_done mc' = 20 ∧
    notifications at_started.2 rt' =
      [go_CheckFailed 7%nat 0%nat;
       go_StillFailing 7%nat 1%nat 1;
       go_StillFailing 7%nat 2%nat 2;
       go_StillFailing 7%nat 3%nat 3;
       go_CheckRecovered 7%nat 4%nat 4 (Seconds 400000000)].
Proof.
  assert (H1 : reachable at_started.1 at_started.2) by apply reachable_after.
  assert (H2 : Monitor_StatusListener at_started.1 = Some 7%nat)
    by (by vm_compute).
  pose proof started_a_not_failing as H3.
  assert (H4 : 0 = Z.of_nat (length (@nil (Time * Time)))) by done.
  assert (H5 : 5 = Z.of_nat (length (@nil (Time * Time))
                     + length ((0, 1000) :: ticks 100000000 3) + 1)) by done.
  assert (H6 : Z.of_nat (length ([] ++ (0, 1000) :: ticks 100000000 3
                       ++ (400000000, 400001000) :: ticks 500000000 15))
               ≤ max_int64) by (by vm_compute).
  exact (conj H1 (conj H2 (conj H3 (conj H4 (conj H5 (conj H6
    (mock_lane_reports_one_cycle _ _ check_a _ _ _ _ _ _ _ _
       H1 H2 H3 H4 H5 H6))))))).
Defined.
